(** * Session server of the chess/poker hybrid: model of [src/server.ts]

    The development embeds the in-memory session store, the board and deck
    helpers, the four REST handlers, the WebSocket message and close
    handlers and [broadcastGameUpdate], and states the server's properties
    over that embedding.

    Conventions of the embedding.
    - A JavaScript array indexed by a number is a finite map from integer
      keys to values ([gmap Z]): reading an absent key yields [undefined],
      writing a key creates it.  Only integer coordinates are modelled.
    - [null] and [undefined] cells are both [None]: the handlers only test
      cells for truthiness.
    - Reading a property of [undefined] (a missing board row) raises a
      [TypeError]; it is the only exception the handlers can raise on
      well-typed payloads.
    - A JavaScript [Map] and the [players] object iterate in insertion
      order, so both are association lists with unique keys.
    - [ws.send] is an output: every handler returns the list of messages it
      sent, in order, next to the new server state. *)

From stdpp Require Import gmap strings list fin_maps.

Open Scope Z_scope.

(** ** Types (server.ts, lines 18-55) *)

Inductive Color := white | black.
Inductive PieceType := pawn | rook | knight | bishop | queen | king.
Inductive Suit := hearts | diamonds | clubs | spades.
Inductive CardValue := Num (n : nat) | J | Q | K | A.
Inductive Status := waiting | active | finished.

#[global] Instance Color_eq_dec : EqDecision Color.
Proof. solve_decision. Defined.
#[global] Instance PieceType_eq_dec : EqDecision PieceType.
Proof. solve_decision. Defined.
#[global] Instance Suit_eq_dec : EqDecision Suit.
Proof. solve_decision. Defined.
#[global] Instance CardValue_eq_dec : EqDecision CardValue.
Proof. solve_decision. Defined.
#[global] Instance Status_eq_dec : EqDecision Status.
Proof. solve_decision. Defined.

Record Card := mkCard { suit : Suit; value : CardValue; revealed : bool }.

Record Coord := Pos { x : Z; y : Z }.

Record ChessPiece := mkPiece {
  type : PieceType;
  color : Color;
  position : Coord;
  card : option Card
}.

#[global] Instance Card_eq_dec : EqDecision Card.
Proof. solve_decision. Defined.
#[global] Instance Coord_eq_dec : EqDecision Coord.
Proof. solve_decision. Defined.
#[global] Instance ChessPiece_eq_dec : EqDecision ChessPiece.
Proof. solve_decision. Defined.

(** A cell is [Some piece] or falsy ([null]/[undefined]); a row and the
    board are JavaScript arrays. *)
Abbreviation Cell := (option ChessPiece).
Abbreviation Row := (gmap Z (option ChessPiece)).
Abbreviation Board := (gmap Z (gmap Z (option ChessPiece))).

(** The [players] object: own properties in insertion order. *)
Abbreviation Players := (list (Color * string)).

Record GameState := mkGame {
  game_id : string;                 (* field [id] *)
  players : Players;
  board : Board;
  communityCards : list Card;
  currentTurn : Color;
  deck : list Card;
  status : Status
}.

Record Move := mkMove { from : Coord; to : Coord; playerId : string }.

Inductive UpdateType := MOVE | CARD_PLAY | GAME_END | PLAYER_JOINED | PLAYER_DISCONNECTED.

(** The [data] payloads the server builds. *)
Inductive UpdateData :=
| MoveData (from to : Coord) (piece : ChessPiece)
| CardPlayData (piecePosition : Coord) (card : Card)
| PlayerData (playerId : string).

Record GameUpdate := mkUpdate {
  upd_type : UpdateType;            (* field [type] *)
  upd_gameId : string;              (* field [gameId] *)
  upd_data : UpdateData             (* field [data] *)
}.

(** ** JavaScript containers *)

(** [Array(n).fill(v)] *)
Definition js_array {V} (n : nat) (v : V) : gmap Z V :=
  list_to_map ((λ i : nat, (Z.of_nat i, v)) <$> seq 0 n).

(** [deck.pop()]: removes and returns the LAST element; [undefined] and no
    change on an empty array. *)
Fixpoint js_pop {V} (l : list V) : option V * list V :=
  match l with
  | [] => (None, [])
  | [v] => (Some v, [])
  | v :: l' => let '(r, rest) := js_pop l' in (r, v :: rest)
  end.

(** [deck.splice(0, n)]: removes and returns the first [n] elements, or
    all of them when fewer remain. *)
Fixpoint js_splice0 {V} (n : nat) (l : list V) : list V * list V :=
  match n, l with
  | S n', v :: l' => let '(removed, rest) := js_splice0 n' l' in (v :: removed, rest)
  | _, _ => ([], l)
  end.

(** Property read and write on an insertion-ordered object or [Map]. *)
Fixpoint obj_get {K V} `{EqDecision K} (k : K) (o : list (K * V)) : option V :=
  match o with
  | [] => None
  | (k', v) :: o' => if decide (k' = k) then Some v else obj_get k o'
  end.

Fixpoint obj_set {K V} `{EqDecision K} (k : K) (v : V) (o : list (K * V)) : list (K * V) :=
  match o with
  | [] => [(k, v)]
  | (k', v') :: o' => if decide (k' = k) then (k, v) :: o' else (k', v') :: obj_set k v o'
  end.

Fixpoint obj_delete {K V} `{EqDecision K} (k : K) (o : list (K * V)) : list (K * V) :=
  match o with
  | [] => []
  | (k', v') :: o' => if decide (k' = k) then o' else (k', v') :: obj_delete k o'
  end.

(** Truthiness of an optional string property: set and not the empty string. *)
Definition truthy (v : option string) : bool :=
  match v with
  | Some s => negb (bool_decide (s = EmptyString))
  | None => false
  end.

(** ** Board access *)

Inductive Completion (V : Type) := Normal (v : V) | TypeError.
Arguments Normal {V} v.
Arguments TypeError {V}.

#[global] Instance Completion_eq_dec {V} `{EqDecision V} : EqDecision (Completion V).
Proof. solve_decision. Defined.

(** [board[p.y][p.x]] as an expression. *)
Definition board_get (b : Board) (p : Coord) : Completion Cell :=
  match b !! y p with
  | None => TypeError
  | Some row => Normal (default None (row !! x p))
  end.

(** Writing the cell of an existing row. *)
Definition board_put (b : Board) (p : Coord) (c : Cell) : Board :=
  alter (λ row : Row, <[x p := c]> row) (y p) b.

(** [board[p.y][p.x] = c] as a statement. *)
Definition board_set (b : Board) (p : Coord) (c : Cell) : Completion Board :=
  match b !! y p with
  | None => TypeError
  | Some _ => Normal (board_put b p c)
  end.

(** ** createInitialBoard (lines 58-96) *)

Definition pieceOrder : list PieceType :=
  [rook; knight; bishop; queen; king; bishop; knight; rook].

Definition createInitialBoard : Board :=
  let board0 : Board := js_array 8 (js_array 8 None) in
  foldl (λ (b : Board) (i : nat),
           let cx := Z.of_nat i in
           let b := board_put b (Pos cx 0)
                      (Some (mkPiece (nth i pieceOrder rook) black (Pos cx 0) None)) in
           let b := board_put b (Pos cx 1) (Some (mkPiece pawn black (Pos cx 1) None)) in
           let b := board_put b (Pos cx 6) (Some (mkPiece pawn white (Pos cx 6) None)) in
           board_put b (Pos cx 7)
             (Some (mkPiece (nth i pieceOrder rook) white (Pos cx 7) None)))
        board0 (seq 0 8).

(** ** createDeck and shuffleDeck (lines 98-119) *)

Definition suits : list Suit := [hearts; diamonds; clubs; spades].
Definition values : list CardValue :=
  [Num 2; Num 3; Num 4; Num 5; Num 6; Num 7; Num 8; Num 9; Num 10; J; Q; K; A].

Definition orderedDeck : list Card :=
  s ← suits; v ← values; [mkCard s v false].

(** [[d[i], d[j]] = [d[j], d[i]]] *)
Definition swap (d : list Card) (i j : nat) : list Card :=
  match d !! i, d !! j with
  | Some ci, Some cj => <[j := ci]> (<[i := cj]> d)
  | _, _ => d
  end.

(** The loop of [shuffleDeck], entered with [i = n].  [Math.random] is an
    oracle: [rnd] lists its successive draws, and
    [Math.floor(Math.random() * (i + 1))], an integer of [0..i], is the
    draw reduced modulo [i + 1]. *)
Fixpoint shuffle_loop (n : nat) (rnd : list nat) (d : list Card) : list Card :=
  match n with
  | O => d
  | S n' =>
      let j := (hd O rnd `mod` (n + 1))%nat in
      shuffle_loop n' (tl rnd) (swap d n j)
  end.

Definition shuffleDeck (rnd : list nat) (d : list Card) : list Card :=
  shuffle_loop (length d - 1) rnd d.

Definition createDeck (rnd : list nat) : list Card := shuffleDeck rnd orderedDeck.

(** ** In-memory storage (lines 13-15) and outputs *)

(** A WebSocket object, compared by identity ([conn.ws === ws]). *)
Abbreviation Handle := nat.

Record Conn := mkConn { ws : Handle; conn_gameId : string (* field [gameId] *) }.

#[global] Instance Conn_eq_dec : EqDecision Conn.
Proof. solve_decision. Defined.

Record Server := mkServer {
  games : gmap string GameState;
  playerConnections : list (string * Conn)
}.

(** What [ws.send] is given. *)
Inductive ServerMsg :=
| Update (u : GameUpdate)
| ERROR (message : string).

Abbreviation Sent := (list (nat * ServerMsg)).

(** What a REST handler answers. *)
Inductive Response :=
| Created (gameId : string) (game : GameState)   (* res.json({gameId, game}) *)
| Json (game : GameState)                        (* res.json(game) *)
| Error (code : nat) (error : string)            (* res.status(code).json({error}) *)
| Uncaught.                                      (* a TypeError left the handler *)

Record Outcome := mkOutcome { srv : Server; sent : Sent; resp : Response }.

Definition set_game (s : Server) (gameId : string) (g : GameState) : Server :=
  mkServer (<[gameId := g]> (games s)) (playerConnections s).

(** ** broadcastGameUpdate (lines 371-378) *)

Fixpoint broadcast_to (conns : list (string * Conn)) (update : GameUpdate) : Sent :=
  match conns with
  | [] => []
  | (_, conn) :: rest =>
      if decide (conn_gameId conn = upd_gameId update)
      then (ws conn, Update update) :: broadcast_to rest update
      else broadcast_to rest update
  end.

Definition broadcastGameUpdate (s : Server) (update : GameUpdate) : Sent :=
  broadcast_to (playerConnections s) update.

(** ** REST endpoints (lines 122-251) *)

(** [POST /api/games]; [gameId] is the value of [uuidv4()]. *)
Definition post_games (gameId : string) (rnd : list nat) (s : Server) : Outcome :=
  let newGame := mkGame gameId [] createInitialBoard [] white (createDeck rnd) waiting in
  mkOutcome (set_game s gameId newGame) [] (Created gameId newGame).

(** [GET /api/games/:gameId] *)
Definition get_game (gameId : string) (s : Server) : Outcome :=
  match games s !! gameId with
  | None => mkOutcome s [] (Error 404 "Game not found")
  | Some game => mkOutcome s [] (Json game)
  end.

Definition reveal (c : Card) : Card := mkCard (suit c) (value c) true.

(** [POST /api/games/:gameId/join] *)
Definition post_join (gameId pid : string) (col : Color) (s : Server) : Outcome :=
  match games s !! gameId with
  | None => mkOutcome s [] (Error 404 "Game not found")
  | Some game =>
      if truthy (obj_get col (players game))
      then mkOutcome s [] (Error 400 "Color already taken")
      else
        let players' := obj_set col pid (players game) in
        let game' :=
          if truthy (obj_get white players') && truthy (obj_get black players')
          then
            let '(dealt, rest) := js_splice0 3 (deck game) in
            mkGame (game_id game) players' (board game) (reveal <$> dealt)
                   (currentTurn game) rest active
          else
            mkGame (game_id game) players' (board game) (communityCards game)
                   (currentTurn game) (deck game) (status game) in
        mkOutcome (set_game s gameId game') [] (Json game')
  end.

(** [Object.entries(game.players).find(([color, id]) => id === playerId)?.[0]] *)
Definition playerColorOf (ps : Players) (pid : string) : option Color :=
  fst <$> List.find (λ e : Color * string, bool_decide (e.2 = pid)) ps.

Definition other (c : Color) : Color :=
  match c with white => black | black => white end.

Definition with_board (g : GameState) (b : Board) : GameState :=
  mkGame (game_id g) (players g) b (communityCards g) (currentTurn g) (deck g) (status g).

Definition with_deck (g : GameState) (d : list Card) : GameState :=
  mkGame (game_id g) (players g) (board g) (communityCards g) (currentTurn g) d (status g).

Definition with_turn (g : GameState) (c : Color) : GameState :=
  mkGame (game_id g) (players g) (board g) (communityCards g) c (deck g) (status g).

(** [{ ...piece, position: { x: to.x, y: to.y } }] *)
Definition moved (piece : ChessPiece) (dst : Coord) : ChessPiece :=
  mkPiece (type piece) (color piece) (Pos (x dst) (y dst)) (card piece).

(** [piece.card = { ...card, revealed: true }] *)
Definition with_card (piece : ChessPiece) (c : Card) : ChessPiece :=
  mkPiece (type piece) (color piece) (position piece) (Some (reveal c)).

(** [POST /api/games/:gameId/move] *)
Definition post_move (gameId : string) (m : Move) (s : Server) : Outcome :=
  match games s !! gameId with
  | None => mkOutcome s [] (Error 404 "Game not found")
  | Some game =>
      match playerColorOf (players game) (playerId m) with
      | None => mkOutcome s [] (Error 400 "Not your turn")
      | Some playerColor =>
          if negb (bool_decide (playerColor = currentTurn game))
          then mkOutcome s [] (Error 400 "Not your turn")
          else
            match board_get (board game) (from m) with
            | TypeError => mkOutcome s [] Uncaught
            | Normal None => mkOutcome s [] (Error 400 "Invalid piece")
            | Normal (Some piece) =>
                if negb (bool_decide (color piece = playerColor))
                then mkOutcome s [] (Error 400 "Invalid piece")
                else
                  match board_set (board game) (to m) (Some (moved piece (to m))) with
                  | TypeError => mkOutcome s [] Uncaught
                  | Normal b1 =>
                      let b2 := board_put b1 (from m) None in
                      let game' := with_turn (with_board game b2)
                                     (if bool_decide (currentTurn game = white)
                                      then black else white) in
                      mkOutcome (set_game s gameId game')
                        (broadcastGameUpdate s
                           (mkUpdate MOVE (game_id game) (MoveData (from m) (to m) piece)))
                        (Json game')
                  end
            end
      end
  end.

(** [POST /api/games/:gameId/play-card]; the body's [playerId] is read
    and never used. *)
Definition post_play_card (gameId pid : string) (piecePosition : Coord) (s : Server)
  : Outcome :=
  match games s !! gameId with
  | None => mkOutcome s [] (Error 404 "Game not found")
  | Some game =>
      match js_pop (deck game) with
      | (None, _) => mkOutcome s [] (Error 400 "No cards left in deck")
      | (Some c, rest) =>
          let game1 := with_deck game rest in
          match board_get (board game1) piecePosition with
          | TypeError => mkOutcome (set_game s gameId game1) [] Uncaught
          | Normal cell =>
              let game2 :=
                match cell with
                | Some piece =>
                    with_board game1
                      (board_put (board game1) piecePosition (Some (with_card piece c)))
                | None => game1
                end in
              mkOutcome (set_game s gameId game2)
                (broadcastGameUpdate s
                   (mkUpdate CARD_PLAY (game_id game) (CardPlayData piecePosition c)))
                (Json game2)
          end
      end
  end.

(** ** isValidMove (lines 353-368) *)

Definition isValidMove (game : GameState) (m : Move) : Completion bool :=
  match board_get (board game) (from m) with
  | TypeError => TypeError
  | Normal None => Normal false
  | Normal (Some piece) =>
      if (x (to m) <? 0) || (7 <? x (to m)) || (y (to m) <? 0) || (7 <? y (to m))
      then Normal false
      else
        match board_get (board game) (to m) with
        | TypeError => TypeError
        | Normal (Some destPiece) =>
            if bool_decide (color destPiece = color piece)
            then Normal false else Normal true
        | Normal None => Normal true
        end
  end.

(** ** WebSocket handling (lines 254-350) *)

(** A parsed inbound message; [OTHER] is any message whose [type] matches
    no case of the switch, [Unparsable] one on which [JSON.parse] throws. *)
Inductive ClientMsg :=
| JOIN_GAME (gameId playerId : string)
| MOVE_REQUEST (gameId : string) (move : Move)
| CARD_PLAY_REQUEST (gameId : string) (piecePosition : Coord)
| OTHER
| Unparsable.

(** The [catch] block of the message handler. *)
Definition caught (s : Server) (conn : nat) : Server * Sent :=
  (s, [(conn, ERROR "Invalid message format")]).

(** [ws.on('message', ...)] for the connection [conn]. *)
Definition on_message (conn : nat) (msg : ClientMsg) (s : Server) : Server * Sent :=
  match msg with
  | JOIN_GAME gameId pid =>
      let s' := mkServer (games s)
                  (obj_set pid (mkConn conn gameId) (playerConnections s)) in
      (s', broadcastGameUpdate s' (mkUpdate PLAYER_JOINED gameId (PlayerData pid)))
  | MOVE_REQUEST gameId m =>
      match games s !! gameId with
      | None => (s, [])
      | Some game =>
          match isValidMove game m with
          | TypeError => caught s conn
          | Normal false => (s, [])
          | Normal true =>
              match board_get (board game) (from m) with
              | TypeError => caught s conn
              | Normal None => (s, [(conn, ERROR "No piece at source position")])
              | Normal (Some piece) =>
                  match board_set (board game) (to m) (Some (moved piece (to m))) with
                  | TypeError => caught s conn
                  | Normal b1 =>
                      let b2 := board_put b1 (from m) None in
                      (set_game s gameId (with_board game b2),
                       broadcastGameUpdate s
                         (mkUpdate MOVE gameId (MoveData (from m) (to m) piece)))
                  end
              end
          end
      end
  | CARD_PLAY_REQUEST gameId piecePosition =>
      match games s !! gameId with
      | None => (s, [])
      | Some game =>
          match js_pop (deck game) with
          | (None, _) => (s, [])
          | (Some c, rest) =>
              let game1 := with_deck game rest in
              match board_get (board game1) piecePosition with
              | TypeError => caught (set_game s gameId game1) conn
              | Normal None => (set_game s gameId game1, [])
              | Normal (Some piece) =>
                  (set_game s gameId
                     (with_board game1
                        (board_put (board game1) piecePosition (Some (with_card piece c)))),
                   broadcastGameUpdate s
                     (mkUpdate CARD_PLAY gameId (CardPlayData piecePosition c)))
              end
          end
      end
  | OTHER => (s, [])
  | Unparsable => caught s conn
  end.

(** The scan of [ws.on('close', ...)]: the first entry whose socket is
    [conn]. *)
Fixpoint find_conn (conn : nat) (conns : list (string * Conn)) : option (string * Conn) :=
  match conns with
  | [] => None
  | (pid, c) :: rest => if decide (ws c = conn) then Some (pid, c) else find_conn conn rest
  end.

(** [ws.on('close', ...)] for the connection [conn]. *)
Definition on_close (conn : nat) (s : Server) : Server * Sent :=
  match find_conn conn (playerConnections s) with
  | None => (s, [])
  | Some (pid, c) =>
      let s' := mkServer (games s) (obj_delete pid (playerConnections s)) in
      (s', broadcastGameUpdate s'
             (mkUpdate PLAYER_DISCONNECTED (conn_gameId c) (PlayerData pid)))
  end.

(** ** Runs of the server *)

Definition empty_server : Server := mkServer ∅ [].

(** A request on either surface. *)
Inductive Request :=
| POST_games (gameId : string) (rnd : list nat)
| GET_game (gameId : string)
| POST_join (gameId playerId : string) (color : Color)
| POST_move (gameId : string) (move : Move)
| POST_play_card (gameId playerId : string) (piecePosition : Coord)
| WS_message (conn : nat) (msg : ClientMsg)
| WS_close (conn : nat).

Definition step (r : Request) (s : Server) : Server :=
  match r with
  | POST_games gameId rnd => srv (post_games gameId rnd s)
  | GET_game gameId => srv (get_game gameId s)
  | POST_join gameId pid col => srv (post_join gameId pid col s)
  | POST_move gameId m => srv (post_move gameId m s)
  | POST_play_card gameId pid p => srv (post_play_card gameId pid p s)
  | WS_message conn msg => (on_message conn msg s).1
  | WS_close conn => (on_close conn s).1
  end.

Definition run (rs : list Request) (s : Server) : Server :=
  foldl (λ s r, step r s) s rs.

(** ** Observations used in the statements *)

(** The occupied cells of a board, with their coordinates. *)
Definition board_cells (b : Board) : list (Coord * ChessPiece) :=
  rw ← map_to_list b;
  ce ← map_to_list rw.2;
  match ce.2 with
  | Some piece => [(Pos ce.1 rw.1, piece)]
  | None => []
  end.

Definition pieces_of (c : Color) (b : Board) : list (Coord * ChessPiece) :=
  filter (λ e, color e.2 = c) (board_cells b).

(** The starting layout in the words of the specification: rows 0 and 7
    hold rook, knight, bishop, queen, king, bishop, knight, rook by column,
    row 1 the black pawns, row 6 the white pawns, every other cell is
    empty. *)
Definition back_rank (cx : Z) : PieceType :=
  if decide (cx = 0 ∨ cx = 7) then rook
  else if decide (cx = 1 ∨ cx = 6) then knight
  else if decide (cx = 2 ∨ cx = 5) then bishop
  else if decide (cx = 3) then queen
  else king.

Definition standard_cell (p : Coord) : Cell :=
  if decide (y p = 0) then Some (mkPiece (back_rank (x p)) black p None)
  else if decide (y p = 1) then Some (mkPiece pawn black p None)
  else if decide (y p = 6) then Some (mkPiece pawn white p None)
  else if decide (y p = 7) then Some (mkPiece (back_rank (x p)) white p None)
  else None.

Definition on_grid (p : Coord) : Prop := 0 ≤ x p ≤ 7 ∧ 0 ≤ y p ≤ 7.

#[global] Instance on_grid_dec p : Decision (on_grid p).
Proof. unfold on_grid. apply _. Defined.

Definition grid : list Coord :=
  r ← seq 0 8; c ← seq 0 8; [Pos (Z.of_nat c) (Z.of_nat r)].

(** The (suit, value) pair that identifies a card. *)
Definition face (c : Card) : Suit * CardValue := (suit c, value c).

Definition both_set (ps : Players) : bool :=
  truthy (obj_get white ps) && truthy (obj_get black ps).

(** The sends of one broadcast of [u] over the registry [conns]: one
    message per entry of the session, in registry order. *)
Definition recipients (conns : list (string * Conn)) (u : GameUpdate) : Sent :=
  (λ e : string * Conn, (ws e.2, Update u))
    <$> filter (λ e : string * Conn, conn_gameId e.2 = upd_gameId u) conns.

(** The registry invariants: [Map] keys are unique, and a session is
    stored under its own identifier. *)
Definition wf_server (s : Server) : Prop :=
  NoDup (playerConnections s).*1 ∧
  ∀ k g, games s !! k = Some g → game_id g = k.

(** ** Sessions used as concrete inputs *)

(** A session created with an oracle that always draws 0, its first
    connection registered, white joined. *)
Definition waiting_server : Server :=
  run [POST_games "g" []; WS_message 1 (JOIN_GAME "g" "p1"); POST_join "g" "p1" white]
      empty_server.

(** The same session with both colors joined. *)
Definition active_server : Server := run [POST_join "g" "p2" black] waiting_server.

(** The waiting session after [n] play-card commands on the cell (0, 0). *)
Definition drained_server (n : nat) : Server :=
  run (replicate n (POST_play_card "g" "p1" (Pos 0 0))) waiting_server.

(** The session of [waiting_server] and of [active_server]. *)
Definition waiting_game : GameState :=
  mkGame "g" [(white, "p1"%string)] createInitialBoard [] white (createDeck []) waiting.

Definition active_game : GameState :=
  mkGame "g" [(white, "p1"%string); (black, "p2"%string)] createInitialBoard
         (reveal <$> take 3 (createDeck [])) white (drop 3 (createDeck [])) active.

(** The session of [drained_server 52]: its deck is empty. *)
Definition drained_game : GameState :=
  default waiting_game (games (drained_server 52) !! "g"%string).

(** The active session with a second connection, and a third connection
    registered for another session identifier. *)
Definition connected_server : Server :=
  run [WS_message 2 (JOIN_GAME "g" "p2"); WS_message 3 (JOIN_GAME "h" "p3")]
      active_server.

(** One connection registered under two player identifiers. *)
Definition shared_socket_server : Server :=
  run [WS_message 1 (JOIN_GAME "g" "p1"); WS_message 1 (JOIN_GAME "g" "p2")]
      empty_server.

(** The session a request names, if any. *)
Definition target (r : Request) : option string :=
  match r with
  | POST_games gameId _ | GET_game gameId | POST_join gameId _ _
  | POST_move gameId _ | POST_play_card gameId _ _ => Some gameId
  | WS_message _ (MOVE_REQUEST gameId _) | WS_message _ (CARD_PLAY_REQUEST gameId _) =>
      Some gameId
  | WS_message _ _ | WS_close _ => None
  end.

(** The waiting session after a play-card command on the cell (0, 0). *)
Definition played_game : GameState :=
  default waiting_game
    (games (srv (post_play_card "g" "p1" (Pos 0 0) waiting_server)) !! "g"%string).

(** ** Invariants of the reachable states *)

(** A board has the rows 0..7 and no other, and every piece records the
    coordinates of the cell that holds it. *)
Definition board_ok (b : Board) : Prop :=
  (∀ r, is_Some (b !! r) ↔ 0 ≤ r ≤ 7) ∧
  (∀ p piece, board_get b p = Normal (Some piece) → position piece = p).

(** The community cards and the deck share no (suit, value) pair and
    repeat none; the deck is face down, the community cards face up, and
    there are at most three of them. *)
Definition cards_ok (g : GameState) : Prop :=
  NoDup (face <$> (communityCards g ++ deck g)) ∧
  Forall (λ c, revealed c = false) (deck g) ∧
  Forall (λ c, revealed c = true) (communityCards g) ∧
  (length (communityCards g) ≤ 3)%nat.

(** A session is never finished; it is active exactly when both colors
    are set; and it has no community cards while it waits. *)
Definition status_ok (g : GameState) : Prop :=
  status g ≠ finished ∧
  (status g = active ↔ both_set (players g) = true) ∧
  (status g = waiting → communityCards g = []) ∧
  NoDup (players g).*1.

Definition session_ok (k : string) (g : GameState) : Prop :=
  game_id g = k ∧ board_ok (board g) ∧ cards_ok g ∧ status_ok g.

Definition server_ok (s : Server) : Prop :=
  NoDup (playerConnections s).*1 ∧ map_Forall session_ok (games s).

(** * Lemmas on the containers *)

Section containers.
Context {V : Type}.
Implicit Types (l : list V) (v : V).

Lemma js_pop_snoc l v : js_pop (l ++ [v]) = (Some v, l).
Proof.
  induction l as [|w l IH]; [done|].
  simpl. rewrite IH. by destruct l.
Qed.

Lemma js_pop_nil_inv l rest : js_pop l = (None, rest) → l = [] ∧ rest = [].
Proof.
  destruct l as [|w l] using rev_ind; [by intros [= <-]|].
  rewrite js_pop_snoc. by intros [=].
Qed.

Lemma js_pop_Some_inv l v rest : js_pop l = (Some v, rest) → l = rest ++ [v].
Proof.
  destruct l as [|w l] using rev_ind; [by intros [=]|].
  rewrite js_pop_snoc. by intros [= -> ->].
Qed.

Lemma js_pop_last l : js_pop l = (last l, take (length l - 1) l).
Proof.
  destruct l as [|w l] using rev_ind; [done|].
  rewrite js_pop_snoc, last_snoc, length_app. simpl.
  replace (length l + 1 - 1)%nat with (length l) by lia.
  by rewrite take_app_length.
Qed.

Lemma js_splice0_take_drop n l : js_splice0 n l = (take n l, drop n l).
Proof.
  revert l. induction n as [|n IH]; intros [|w l]; simpl; try done.
  by rewrite IH.
Qed.
End containers.

Section objects.
Context {K V : Type} `{EqDecision K}.
Implicit Types (o : list (K * V)) (k : K) (v : V).

Lemma obj_get_set_eq o k v : obj_get k (obj_set k v o) = Some v.
Proof.
  induction o as [|[k' v'] o IH]; simpl; repeat (case_decide; simpl); congruence.
Qed.

Lemma obj_get_set_ne o k k' v : k ≠ k' → obj_get k' (obj_set k v o) = obj_get k' o.
Proof.
  intros Hne.
  induction o as [|[k0 v0] o IH]; simpl; repeat (case_decide; simpl); congruence.
Qed.

Lemma obj_set_keys_in o k v : k ∈ o.*1 → (obj_set k v o).*1 = o.*1.
Proof.
  induction o as [|[k' v'] o IH]; csimpl.
  - by intros ?%elem_of_nil.
  - intros Hin. case_decide; simplify_eq; csimpl; [done|].
    apply elem_of_cons in Hin as [?|?]; [congruence|]. by rewrite IH.
Qed.

Lemma obj_set_keys_fresh o k v : k ∉ o.*1 → (obj_set k v o).*1 = o.*1 ++ [k].
Proof.
  induction o as [|[k' v'] o IH]; csimpl; [done|].
  intros Hin. apply not_elem_of_cons in Hin as [? ?].
  case_decide; simplify_eq; csimpl. by rewrite IH.
Qed.

Lemma obj_set_NoDup o k v : NoDup o.*1 → NoDup (obj_set k v o).*1.
Proof.
  intros Hnd. destruct (decide (k ∈ o.*1)).
  - by rewrite obj_set_keys_in.
  - rewrite obj_set_keys_fresh by done.
    apply NoDup_app. split_and!; [done| |apply NoDup_singleton].
    by intros k' Hk' ->%list_elem_of_singleton.
Qed.

Lemma obj_delete_filter o k :
  NoDup o.*1 → obj_delete k o = filter (λ e, e.1 ≠ k) o.
Proof.
  induction o as [|[k' v'] o IH]; [done|].
  rewrite fmap_cons, NoDup_cons. intros [Hk' Hnd]. csimpl.
  case_decide; simplify_eq.
  - rewrite filter_cons_False by (csimpl; tauto).
    clear IH Hnd. induction o as [|[k0 v0] o IH]; [done|].
    csimpl in Hk'. apply not_elem_of_cons in Hk' as [? ?].
    rewrite filter_cons_True by (csimpl; congruence). by rewrite <-IH.
  - rewrite filter_cons_True by done. by rewrite IH.
Qed.

Lemma obj_delete_NoDup o k : NoDup o.*1 → NoDup (obj_delete k o).*1.
Proof.
  intros Hnd. rewrite obj_delete_filter by done.
  induction o as [|[k' v'] o IH]; [done|].
  rewrite fmap_cons, NoDup_cons in Hnd. destruct Hnd as [Hk' Hnd].
  rewrite filter_cons. case_decide; [|by apply IH].
  rewrite fmap_cons. apply NoDup_cons. split; [|by apply IH].
  csimpl. intros (e & -> & [_ He]%list_elem_of_filter)%list_elem_of_fmap.
  apply Hk'. apply list_elem_of_fmap. by exists e.
Qed.

(** Deleting the key of an entry removes that entry and nothing else. *)
Lemma obj_delete_split o k v :
  NoDup o.*1 → (k, v) ∈ o →
  ∃ o1 o2, o = o1 ++ (k, v) :: o2 ∧ obj_delete k o = o1 ++ o2.
Proof.
  induction o as [|[k' v'] o IH]; [by intros _ ?%elem_of_nil|].
  rewrite fmap_cons, NoDup_cons. intros [Hk' Hnd] Hin. csimpl.
  apply elem_of_cons in Hin as [Heq|Hin].
  - simplify_eq. rewrite decide_True by done. by exists [], o.
  - case_decide; simplify_eq.
    + exfalso. apply Hk'. apply list_elem_of_fmap. by exists (k, v).
    + destruct (IH Hnd Hin) as (o1 & o2 & -> & ->).
      by exists ((k', v') :: o1), o2.
Qed.

End objects.

(** * Lemmas on the helpers *)

Ltac by_compute := apply (bool_decide_unpack _); vm_compute; exact I.

Lemma broadcast_to_recipients conns u : broadcast_to conns u = recipients conns u.
Proof.
  unfold recipients.
  induction conns as [|[pid c] conns IH]; [done|].
  simpl. rewrite filter_cons. simpl.
  destruct (decide (conn_gameId c = upd_gameId u)); [|done].
  by rewrite fmap_cons, IH.
Qed.

Lemma swap_Permutation d i j : swap d i j ≡ₚ d.
Proof.
  unfold swap.
  destruct (d !! i) as [ci|] eqn:Hi; [|done].
  destruct (d !! j) as [cj|] eqn:Hj; [|done].
  by apply Permutation_insert_swap.
Qed.

Lemma shuffle_loop_Permutation n rnd d : shuffle_loop n rnd d ≡ₚ d.
Proof.
  revert rnd d. induction n as [|n IH]; intros rnd d; [done|].
  simpl. rewrite IH. apply swap_Permutation.
Qed.

Lemma createDeck_Permutation rnd : createDeck rnd ≡ₚ orderedDeck.
Proof. apply shuffle_loop_Permutation. Qed.

Lemma board_get_cells (b : Board) p piece :
  board_get b p = Normal (Some piece) ↔ (p, piece) ∈ board_cells b.
Proof.
  unfold board_get, board_cells. destruct p as [px py]. simpl. split.
  - destruct (b !! py) as [row|] eqn:Hrow; [|done].
    destruct (row !! px) as [cell|] eqn:Hcell; simpl; [|done].
    intros [= ->].
    apply list_elem_of_bind. exists (py, row). split; [|by apply elem_of_map_to_list].
    apply list_elem_of_bind. exists (px, Some piece).
    split; [simpl; by left|by apply elem_of_map_to_list].
  - intros ([r row] & Hin & Hrow%elem_of_map_to_list)%list_elem_of_bind.
    apply list_elem_of_bind in Hin as ([c cell] & Hin & Hcell%elem_of_map_to_list).
    simpl in *. destruct cell as [q|]; [|by apply elem_of_nil in Hin].
    apply list_elem_of_singleton in Hin as [= -> -> ->].
    by rewrite Hrow, Hcell.
Qed.

Lemma on_grid_in_grid p : on_grid p → p ∈ grid.
Proof.
  destruct p as [px py]. unfold on_grid. simpl. intros [[??] [??]].
  apply list_elem_of_bind. exists (Z.to_nat py). split.
  - apply list_elem_of_bind. exists (Z.to_nat px). split.
    + rewrite !Z2Nat.id by done. by left.
    + apply elem_of_seq. lia.
  - apply elem_of_seq. lia.
Qed.

(** The board of a new session, cell by cell. *)
Lemma createInitialBoard_grid :
  Forall (λ p, board_get createInitialBoard p = Normal (standard_cell p)) grid.
Proof. by_compute. Qed.

Lemma createInitialBoard_rows r :
  is_Some (createInitialBoard !! r) ↔ 0 ≤ r ≤ 7.
Proof.
  split.
  - intros [row Hrow].
    assert (Hin : (r, row) ∈ map_to_list createInitialBoard)
      by by apply elem_of_map_to_list.
    apply (list_elem_of_fmap_2 fst) in Hin.
    assert (Hdom : Forall (λ k, 0 ≤ k ≤ 7) (map_to_list createInitialBoard).*1).
    { by_compute. }
    rewrite Forall_forall in Hdom. by apply Hdom in Hin.
  - intros Hr.
    assert (r = 0 ∨ r = 1 ∨ r = 2 ∨ r = 3 ∨ r = 4 ∨ r = 5 ∨ r = 6 ∨ r = 7)
      as Hcases by lia.
    destruct_or!; subst r; vm_compute; eauto.
Qed.

Lemma createInitialBoard_cells :
  Forall (λ e : Coord * ChessPiece, on_grid e.1 ∧ position e.2 = e.1)
         (board_cells createInitialBoard).
Proof. by_compute. Qed.

Lemma createDeck_length rnd : length (createDeck rnd) = 52%nat.
Proof. by rewrite createDeck_Permutation. Qed.

Lemma createDeck_NoDup rnd : NoDup (face <$> createDeck rnd).
Proof. rewrite createDeck_Permutation. by_compute. Qed.

(** * Lemmas on the board *)

Lemma board_get_Normal b p :
  is_Some (b !! y p) ↔ ∃ cell, board_get b p = Normal cell.
Proof.
  unfold board_get. destruct (b !! y p); split.
  - eauto.
  - eauto.
  - by intros [? ?].
  - by intros [? ?].
Qed.

Lemma board_put_rows b p c r : is_Some (board_put b p c !! r) ↔ is_Some (b !! r).
Proof.
  unfold board_put. rewrite lookup_alter.
  case_decide; subst; [|done]. by rewrite fmap_is_Some.
Qed.

Lemma board_get_put_eq b p c :
  is_Some (b !! y p) → board_get (board_put b p c) p = Normal c.
Proof.
  intros [row Hrow]. unfold board_get, board_put.
  rewrite lookup_alter_eq, Hrow. simpl. by rewrite lookup_insert_eq.
Qed.

Lemma board_get_put_ne b p q c :
  p ≠ q → board_get (board_put b p c) q = board_get b q.
Proof.
  intros Hne. unfold board_get, board_put. rewrite lookup_alter.
  case_decide as Hy; [|done].
  destruct (b !! y p) as [row|] eqn:Hrow; rewrite <-Hy, Hrow; simpl; [|done].
  rewrite lookup_insert_ne; [done|].
  intros Hx. apply Hne. destruct p, q; simpl in *; congruence.
Qed.

Lemma board_set_Normal b p c :
  is_Some (b !! y p) → board_set b p c = Normal (board_put b p c).
Proof. intros [row Hrow]. unfold board_set. by rewrite Hrow. Qed.

(** * Lemmas on the registry *)

Lemma find_conn_Some conn conns pid c :
  find_conn conn conns = Some (pid, c) → (pid, c) ∈ conns ∧ ws c = conn.
Proof.
  induction conns as [|[pid' c'] conns IH]; [done|].
  simpl. case_decide.
  - intros [= -> ->]. split; [by left|done].
  - intros [? ?]%IH. split; [by right|done].
Qed.

Lemma find_conn_None conn conns :
  find_conn conn conns = None ↔ ∀ pid c, (pid, c) ∈ conns → ws c ≠ conn.
Proof.
  induction conns as [|[pid' c'] conns IH]; simpl.
  - split; [|done]. by intros _ ?? ?%elem_of_nil.
  - case_decide as Hws.
    + split; [done|]. intros Hall. exfalso. by apply (Hall pid' c'); [left|].
    + rewrite IH. split.
      * intros Hall pid c [[= -> ->]|?]%elem_of_cons; eauto.
      * intros Hall pid c ?. apply (Hall pid c). by right.
Qed.

Lemma obj_set_elem {K V} `{EqDecision K} (o : list (K * V)) k v :
  (k, v) ∈ obj_set k v o.
Proof.
  induction o as [|[k' v'] o IH]; simpl; [by left|].
  case_decide; [by left|by right].
Qed.

Lemma elem_of_recipients conns u h msg :
  (h, msg) ∈ recipients conns u ↔
  msg = Update u ∧
  ∃ pid c, (pid, c) ∈ conns ∧ ws c = h ∧ conn_gameId c = upd_gameId u.
Proof.
  unfold recipients. rewrite list_elem_of_fmap. split.
  - intros ([pid c] & [= -> ->] & [Hg Hin]%list_elem_of_filter).
    split; [done|]. by exists pid, c.
  - intros (-> & pid & c & Hin & <- & Hg). exists (pid, c).
    split; [done|]. by apply list_elem_of_filter.
Qed.

Lemma isValidMove_true game m :
  isValidMove game m = Normal true →
  ∃ piece,
    board_get (board game) (from m) = Normal (Some piece) ∧
    on_grid (to m) ∧
    is_Some (board game !! y (to m)) ∧
    from m ≠ to m ∧
    ∀ destPiece, board_get (board game) (to m) = Normal (Some destPiece) →
                 color destPiece ≠ color piece.
Proof.
  unfold isValidMove.
  destruct (board_get (board game) (from m)) as [[piece|]|] eqn:Hfrom; try done.
  destruct (_ || _) eqn:Hbounds; [done|].
  repeat (apply orb_false_elim in Hbounds as [Hbounds ?]).
  destruct (board_get (board game) (to m)) as [[destPiece|]|] eqn:Hto; try done.
  - case_bool_decide as Hcol; [done|]. intros _. exists piece.
    split_and!; [done|unfold on_grid; lia| | |].
    + apply board_get_Normal. eauto.
    + intros Heq. rewrite Heq, Hto in Hfrom. congruence.
    + by intros ? [= <-].
  - intros _. exists piece.
    split_and!; [done|unfold on_grid; lia| | |done].
    + apply board_get_Normal. eauto.
    + intros Heq. rewrite Heq, Hto in Hfrom. congruence.
Qed.

(** * The concrete sessions *)


Lemma waiting_server_game : games waiting_server !! "g"%string = Some waiting_game.
Proof. vm_compute. reflexivity. Qed.


(** * Properties of the specification *)

(** C8.  Every session returned by the create command has a board of exactly
    32 pieces, 16 white and 16 black, in the standard starting layout, each
    piece's [position] being the coordinates of its cell; a deck of exactly
    52 cards without a repeated (suit, value) pair; no community cards;
    [status = waiting] and [currentTurn = white]. *)
Theorem post_games_initial_session gameId rnd s :
  ∃ g,
    resp (post_games gameId rnd s) = Created gameId g ∧
    games (srv (post_games gameId rnd s)) !! gameId = Some g ∧
    length (board_cells (board g)) = 32%nat ∧
    length (pieces_of white (board g)) = 16%nat ∧
    length (pieces_of black (board g)) = 16%nat ∧
    (∀ p, on_grid p → board_get (board g) p = Normal (standard_cell p)) ∧
    (∀ p piece, board_get (board g) p = Normal (Some piece) →
                on_grid p ∧ position piece = p) ∧
    length (deck g) = 52%nat ∧
    NoDup (face <$> deck g) ∧
    communityCards g = [] ∧
    status g = waiting ∧
    currentTurn g = white.
Proof.
  eexists. split; [reflexivity|].
  split; [apply lookup_insert_eq|].
  cbn [board deck communityCards status currentTurn].
  split_and!; [by vm_compute..| | | | |reflexivity|reflexivity|reflexivity].
  - intros p Hp%on_grid_in_grid.
    by apply (proj1 (Forall_forall _ _) createInitialBoard_grid).
  - intros p piece Hcell%board_get_cells.
    by apply (proj1 (Forall_forall _ _) createInitialBoard_cells) in Hcell.
  - apply createDeck_length.
  - apply createDeck_NoDup.
Qed.

(** ** Join *)




(** * Moves *)

(** What the push-channel handler does with a MOVE_REQUEST that
    [isValidMove] accepts. *)
Lemma on_message_move_request_valid conn gameId m s game :
  games s !! gameId = Some game →
  isValidMove game m = Normal true →
  ∃ piece,
    board_get (board game) (from m) = Normal (Some piece) ∧
    on_message conn (MOVE_REQUEST gameId m) s =
      (set_game s gameId
         (with_board game
            (board_put (board_put (board game) (to m) (Some (moved piece (to m))))
               (from m) None)),
       recipients (playerConnections s)
         (mkUpdate MOVE gameId (MoveData (from m) (to m) piece))) ∧
    board_get (board_put (board_put (board game) (to m) (Some (moved piece (to m))))
                 (from m) None) (to m) = Normal (Some (moved piece (to m))) ∧
    board_get (board_put (board_put (board game) (to m) (Some (moved piece (to m))))
                 (from m) None) (from m) = Normal None.
Proof.
  intros Hgame Hvalid.
  destruct (isValidMove_true _ _ Hvalid) as (piece & Hfrom & _ & Hrow & Hne & _).
  exists piece. split; [done|].
  unfold on_message. rewrite Hgame, Hvalid, Hfrom, (board_set_Normal _ _ _ Hrow).
  unfold broadcastGameUpdate. rewrite broadcast_to_recipients.
  split_and!; [reflexivity| |].
  - rewrite board_get_put_ne by done. by apply board_get_put_eq.
  - apply board_get_put_eq. apply board_put_rows.
    apply board_get_Normal. eauto.
Qed.

(** C1.  An accepted push-channel MOVE_REQUEST moves the piece and
    broadcasts the MOVE update, and leaves [currentTurn] as it was: the
    turn is not flipped on this surface. *)
Theorem ws_move_request_keeps_currentTurn conn gameId m s game :
  games s !! gameId = Some game →
  isValidMove game m = Normal true →
  ∃ piece game',
    board_get (board game) (from m) = Normal (Some piece) ∧
    on_message conn (MOVE_REQUEST gameId m) s =
      (set_game s gameId game',
       recipients (playerConnections s)
         (mkUpdate MOVE gameId (MoveData (from m) (to m) piece))) ∧
    board_get (board game') (to m) = Normal (Some (moved piece (to m))) ∧
    board_get (board game') (from m) = Normal None ∧
    currentTurn game' = currentTurn game ∧
    currentTurn game' ≠ other (currentTurn game).
Proof.
  intros Hgame Hvalid.
  destruct (on_message_move_request_valid conn _ _ _ _ Hgame Hvalid)
    as (piece & Hfrom & Hmsg & Hto & Hfrom').
  exists piece. eexists. split; [done|]. split; [exact Hmsg|].
  cbn [board with_board currentTurn]. split_and!; [done|done|done|].
  by destruct (currentTurn game).
Qed.

Lemma ws_move_request_keeps_currentTurn_witness :
  ∃ piece game',
    board_get (board active_game) (Pos 4 6) = Normal (Some piece) ∧
    on_message 1 (MOVE_REQUEST "g" (mkMove (Pos 4 6) (Pos 4 4) "p1")) active_server =
      (set_game active_server "g" game',
       recipients (playerConnections active_server)
         (mkUpdate MOVE "g" (MoveData (Pos 4 6) (Pos 4 4) piece))) ∧
    board_get (board game') (Pos 4 4) = Normal (Some (moved piece (Pos 4 4))) ∧
    board_get (board game') (Pos 4 6) = Normal None ∧
    currentTurn game' = currentTurn active_game ∧
    currentTurn game' ≠ other (currentTurn active_game).
Proof.
  apply (ws_move_request_keeps_currentTurn 1 "g"
           (mkMove (Pos 4 6) (Pos 4 4) "p1") active_server active_game).
  - vm_compute. reflexivity.
  - vm_compute. reflexivity.
Defined.

(** C2, as amended.  A REST move command against an existing session
    whose acting player, resolved by the reverse lookup over [players],
    has no color or a color other than [currentTurn], is answered
    400 'Not your turn'; the server state, hence the board and
    [currentTurn], is unchanged and nothing is broadcast.  The push
    channel makes no turn check: a MOVE_REQUEST of such a player that
    [isValidMove] accepts is carried out. *)
Theorem post_move_not_your_turn gameId m s game :
  games s !! gameId = Some game →
  playerColorOf (players game) (playerId m) ≠ Some (currentTurn game) →
  post_move gameId m s = mkOutcome s [] (Error 400 "Not your turn") ∧
  games (srv (post_move gameId m s)) !! gameId = Some game ∧
  (isValidMove game m = Normal true →
   ∀ conn, ∃ piece game',
     (on_message conn (MOVE_REQUEST gameId m) s).1 = set_game s gameId game' ∧
     board_get (board game) (from m) = Normal (Some piece) ∧
     board_get (board game') (from m) = Normal None ∧
     board_get (board game') (to m) = Normal (Some (moved piece (to m)))).
Proof.
  intros Hgame Hturn.
  assert (post_move gameId m s = mkOutcome s [] (Error 400 "Not your turn")) as ->.
  { unfold post_move. rewrite Hgame.
    destruct (playerColorOf (players game) (playerId m)) as [playerColor|]; [|done].
    case_bool_decide; [congruence|done]. }
  split_and!; [done|done|].
  intros Hvalid conn.
  destruct (on_message_move_request_valid conn _ _ _ _ Hgame Hvalid)
    as (piece & Hfrom & -> & Hto & Hfrom').
  exists piece. eexists. split; [reflexivity|]. done.
Qed.

Lemma post_move_not_your_turn_witness :
  post_move "g" (mkMove (Pos 4 1) (Pos 4 3) "p2") active_server =
    mkOutcome active_server [] (Error 400 "Not your turn") ∧
  games (srv (post_move "g" (mkMove (Pos 4 1) (Pos 4 3) "p2") active_server))
    !! "g"%string = Some active_game ∧
  (isValidMove active_game (mkMove (Pos 4 1) (Pos 4 3) "p2") = Normal true →
   ∀ conn, ∃ piece game',
     (on_message conn (MOVE_REQUEST "g" (mkMove (Pos 4 1) (Pos 4 3) "p2"))
        active_server).1 = set_game active_server "g" game' ∧
     board_get (board active_game) (Pos 4 1) = Normal (Some piece) ∧
     board_get (board game') (Pos 4 1) = Normal None ∧
     board_get (board game') (Pos 4 3) = Normal (Some (moved piece (Pos 4 3)))).
Proof.
  apply (post_move_not_your_turn "g" (mkMove (Pos 4 1) (Pos 4 3) "p2")
           active_server active_game).
  - vm_compute. reflexivity.
  - vm_compute. discriminate.
Defined.

(** C2 as stated fails on the push channel: black's player moves a black
    pawn while [currentTurn] is white; no error is sent, the pawn is moved
    and the MOVE update is broadcast. *)
Lemma ws_move_request_out_of_turn :
  ∃ game game' piece,
    games active_server !! "g"%string = Some game ∧
    playerColorOf (players game) "p2" = Some black ∧
    currentTurn game = white ∧
    on_message 2 (MOVE_REQUEST "g" (mkMove (Pos 4 1) (Pos 4 3) "p2")) active_server =
      (set_game active_server "g" game',
       [(1%nat, Update (mkUpdate MOVE "g" (MoveData (Pos 4 1) (Pos 4 3) piece)))]) ∧
    board_get (board game) (Pos 4 3) = Normal None ∧
    board_get (board game') (Pos 4 3) = Normal (Some (moved piece (Pos 4 3))) ∧
    color piece = black.
Proof.
  exists active_game. eexists (with_board active_game _), _.
  split; [vm_compute; reflexivity|].
  split; [vm_compute; reflexivity|].
  split; [reflexivity|].
  split; [vm_compute; reflexivity|].
  split; [vm_compute; reflexivity|].
  split; vm_compute; reflexivity.
Qed.

(** * Connections *)

(** C6.  The PLAYER_JOINED update of a push-channel JOIN_GAME is broadcast
    over the registry that already holds the joining entry: every
    connection of the session receives it, the joining connection
    included. *)
Theorem join_game_notifies_joiner conn gameId pid s :
  (on_message conn (JOIN_GAME gameId pid) s).2 =
    recipients (obj_set pid (mkConn conn gameId) (playerConnections s))
      (mkUpdate PLAYER_JOINED gameId (PlayerData pid)) ∧
  (conn, Update (mkUpdate PLAYER_JOINED gameId (PlayerData pid)))
    ∈ (on_message conn (JOIN_GAME gameId pid) s).2.
Proof.
  unfold on_message, broadcastGameUpdate. cbn [snd playerConnections].
  rewrite broadcast_to_recipients. split; [done|].
  apply elem_of_recipients. split; [done|].
  exists pid, (mkConn conn gameId). split_and!; [apply obj_set_elem|done|done].
Qed.

(** C9.  A disconnect on a connection whose handle matches a registered
    entry removes exactly that entry from the registry, keeps the
    sessions, and broadcasts one PLAYER_DISCONNECTED update {playerId}:
    it is sent once to each remaining entry registered for that player's
    session, and to no entry of another session. *)
Theorem on_close_unregisters conn s pid c :
  NoDup (playerConnections s).*1 →
  find_conn conn (playerConnections s) = Some (pid, c) →
  ∃ l1 l2,
    ws c = conn ∧
    playerConnections s = l1 ++ (pid, c) :: l2 ∧
    playerConnections (on_close conn s).1 = l1 ++ l2 ∧
    obj_get pid (playerConnections (on_close conn s).1) = None ∧
    games (on_close conn s).1 = games s ∧
    (on_close conn s).2 =
      recipients (l1 ++ l2)
        (mkUpdate PLAYER_DISCONNECTED (conn_gameId c) (PlayerData pid)) ∧
    (∀ h msg, (h, msg) ∈ (on_close conn s).2 ↔
       msg = Update (mkUpdate PLAYER_DISCONNECTED (conn_gameId c) (PlayerData pid)) ∧
       ∃ pid' c', (pid', c') ∈ l1 ++ l2 ∧ ws c' = h ∧ conn_gameId c' = conn_gameId c).
Proof.
  intros Hnd Hfind.
  destruct (find_conn_Some _ _ _ _ Hfind) as [Hin Hws].
  destruct (obj_delete_split _ _ _ Hnd Hin) as (l1 & l2 & Heq & Hdel).
  exists l1, l2. unfold on_close. rewrite Hfind.
  cbn [fst snd playerConnections games]. unfold broadcastGameUpdate.
  cbn [playerConnections]. rewrite broadcast_to_recipients, Hdel.
  split_and!; try done.
  - rewrite Heq in Hnd. clear -Hnd.
    rewrite fmap_app, fmap_cons in Hnd. apply NoDup_app in Hnd as (_ & Hl1 & Hl2).
    apply NoDup_cons in Hl2 as [Hl2 _]. simpl in *.
    assert (Hnone : ∀ o : list (string * Conn), pid ∉ o.*1 → obj_get pid o = None).
    { induction o as [|[k v] o IH]; [done|]. csimpl.
      intros [? ?]%not_elem_of_cons. case_decide; [congruence|auto]. }
    apply Hnone. rewrite fmap_app, elem_of_app. intros [?|?]; [|done].
    by apply (Hl1 pid); [|left].
  - intros h msg. apply elem_of_recipients.
Qed.

Lemma on_close_unregisters_witness :
  ∃ l1 l2,
    ws (mkConn 2 "g") = 2%nat ∧
    playerConnections connected_server = l1 ++ ("p2"%string, mkConn 2 "g") :: l2 ∧
    playerConnections (on_close 2 connected_server).1 = l1 ++ l2 ∧
    obj_get "p2"%string (playerConnections (on_close 2 connected_server).1) = None ∧
    games (on_close 2 connected_server).1 = games connected_server ∧
    (on_close 2 connected_server).2 =
      recipients (l1 ++ l2) (mkUpdate PLAYER_DISCONNECTED "g" (PlayerData "p2")) ∧
    (∀ h msg, (h, msg) ∈ (on_close 2 connected_server).2 ↔
       msg = Update (mkUpdate PLAYER_DISCONNECTED "g" (PlayerData "p2")) ∧
       ∃ pid' c', (pid', c') ∈ l1 ++ l2 ∧ ws c' = h ∧ conn_gameId c' = "g"%string).
Proof.
  apply (on_close_unregisters 2 connected_server "p2" (mkConn 2 "g")).
  - by_compute.
  - vm_compute. reflexivity.
Defined.

(** * Cards *)

(** [pop] and [splice(0, n)] on one array: on a list without repeats that
    holds more than [n] elements, the element [pop] yields is not among the
    [n] that [splice] removes, and [pop] still yields it afterwards. *)
Lemma js_pop_js_splice0_opposite_ends (d : list Card) (n : nat) :
  NoDup d → (n < length d)%nat →
  ∃ c,
    last d = Some c ∧
    fst (js_pop d) = Some c ∧
    fst (js_splice0 n d) = take n d ∧
    snd (js_splice0 n d) = drop n d ∧
    fst (js_pop (snd (js_splice0 n d))) = Some c ∧
    c ∉ fst (js_splice0 n d).
Proof.
  rewrite js_splice0_take_drop, !js_pop_last. cbn [fst snd].
  destruct d as [|c d _] using rev_ind; [intros _ Hlen; simpl in Hlen; lia|].
  rewrite length_app. simpl. intros Hnd Hlen.
  exists c. rewrite last_snoc.
  apply NoDup_app in Hnd as (_ & Hc & _).
  assert (Hn : (n ≤ length d)%nat) by lia.
  rewrite (take_app_le d [c] n Hn), (drop_app_le d [c] n Hn), last_snoc.
  split_and!; try done.
  intros Hin. apply (Hc c); [|by left].
  rewrite <-(take_drop n d), elem_of_app. by left.
Qed.

(** The draw of the play-card handlers: on both surfaces the session is
    stored again with the deck's last card removed, and the card the REST
    handler broadcasts is that card. *)
Lemma play_card_draws_last conn gameId pid p s game c rest :
  games s !! gameId = Some game →
  deck game = rest ++ [c] →
  (∃ g1, games (srv (post_play_card gameId pid p s)) !! gameId = Some g1 ∧
         deck g1 = rest) ∧
  (∃ g2, games (on_message conn (CARD_PLAY_REQUEST gameId p) s).1 !! gameId = Some g2 ∧
         deck g2 = rest) ∧
  (is_Some (board game !! y p) →
   sent (post_play_card gameId pid p s) =
     recipients (playerConnections s)
       (mkUpdate CARD_PLAY (game_id game) (CardPlayData p c))).
Proof.
  intros Hgame Hdeck.
  unfold post_play_card, on_message, broadcastGameUpdate.
  rewrite Hgame, Hdeck, js_pop_snoc. cbn [board with_deck].
  rewrite !broadcast_to_recipients. unfold board_get.
  destruct (board game !! y p) as [row|]; [destruct (default None (row !! x p))|];
    cbn [srv sent fst snd caught set_game games];
    rewrite !lookup_insert_eq; split_and!; eauto.
  by intros [? ?].
Qed.

(** C3, as amended.  [draw] and [deal] work on opposite ends of the deck:
    on both surfaces a play-card command draws the last card of the
    session's deck, and the activating join deals its first three.  In a
    session whose deck repeats no (suit, value) pair and holds more than
    three cards, the card a play-card command draws is none of the
    community cards the activating join deals, and it is still the card a
    play-card command draws after that join. *)
Theorem draw_and_deal_opposite_ends conn gameId pid pid' col p s game :
  games s !! gameId = Some game →
  NoDup (face <$> deck game) →
  (3 < length (deck game))%nat →
  truthy (obj_get col (players game)) = false →
  both_set (obj_set col pid (players game)) = true →
  ∃ c rest game',
    deck game = rest ++ [c] ∧
    last (deck game) = Some c ∧
    (∃ g1, games (srv (post_play_card gameId pid' p s)) !! gameId = Some g1 ∧
           deck g1 = rest) ∧
    (∃ g2, games (on_message conn (CARD_PLAY_REQUEST gameId p) s).1 !! gameId = Some g2 ∧
           deck g2 = rest) ∧
    (is_Some (board game !! y p) →
     sent (post_play_card gameId pid' p s) =
       recipients (playerConnections s)
         (mkUpdate CARD_PLAY (game_id game) (CardPlayData p c))) ∧
    resp (post_join gameId pid col s) = Json game' ∧
    games (srv (post_join gameId pid col s)) !! gameId = Some game' ∧
    communityCards game' = reveal <$> take 3 (deck game) ∧
    deck game' = drop 3 (deck game) ∧
    (face c ∉ face <$> communityCards game') ∧
    (∃ g3, games (srv (post_play_card gameId pid' p (srv (post_join gameId pid col s))))
             !! gameId = Some g3 ∧
           deck game' = deck g3 ++ [c]) ∧
    (∃ g4, games (on_message conn (CARD_PLAY_REQUEST gameId p)
                    (srv (post_join gameId pid col s))).1 !! gameId = Some g4 ∧
           deck game' = deck g4 ++ [c]).
Proof.
  intros Hgame Hnd Hlen Hfree Hboth.
  destruct (deck game) as [|c rest _] eqn:Hdeck using rev_ind; [simpl in Hlen; lia|].
  rewrite length_app in Hlen. simpl in Hlen.
  assert (Hn : (3 ≤ length rest)%nat) by lia.
  destruct (play_card_draws_last conn gameId pid' p s game c rest Hgame Hdeck)
    as (Hrest & Hws & Hsent).
  assert (Hjoin : post_join gameId pid col s =
            mkOutcome
              (set_game s gameId
                 (mkGame (game_id game) (obj_set col pid (players game)) (board game)
                    (reveal <$> take 3 rest) (currentTurn game) (drop 3 rest ++ [c])
                    active)) []
              (Json
                 (mkGame (game_id game) (obj_set col pid (players game)) (board game)
                    (reveal <$> take 3 rest) (currentTurn game) (drop 3 rest ++ [c])
                    active))).
  { unfold post_join. rewrite Hgame, Hfree.
    fold (both_set (obj_set col pid (players game))). rewrite Hboth.
    rewrite js_splice0_take_drop, Hdeck.
    by rewrite (take_app_le rest [c] 3 Hn), (drop_app_le rest [c] 3 Hn). }
  rewrite Hjoin. cbn [srv resp].
  edestruct (play_card_draws_last conn gameId pid' p
               (set_game s gameId
                  (mkGame (game_id game) (obj_set col pid (players game)) (board game)
                     (reveal <$> take 3 rest) (currentTurn game) (drop 3 rest ++ [c])
                     active)))
    as ((g3 & Hg3 & Hd3) & (g4 & Hg4 & Hd4) & _);
    [cbn [set_game games]; apply lookup_insert_eq|reflexivity|].
  exists c, rest. eexists. split_and!; try done.
  - by rewrite last_snoc.
  - cbn [set_game games]. apply lookup_insert_eq.
  - cbn [communityCards]. by rewrite (take_app_le rest [c] 3 Hn).
  - cbn [deck]. by rewrite (drop_app_le rest [c] 3 Hn).
  - cbn [communityCards]. rewrite <-list_fmap_compose.
    rewrite fmap_app in Hnd. apply NoDup_app in Hnd as (_ & Hdisj & _).
    intros Hin. apply (Hdisj (face c)); [|by left].
    apply list_elem_of_fmap in Hin as (c' & Hface & Hin).
    apply list_elem_of_fmap. exists c'. split; [done|].
    rewrite <-(take_drop 3 rest), elem_of_app. by left.
  - exists g3. split; [done|]. cbn [deck]. by rewrite Hd3.
  - exists g4. split; [done|]. cbn [deck]. by rewrite Hd4.
Qed.

Lemma draw_and_deal_opposite_ends_witness :
  ∃ c rest game',
    deck waiting_game = rest ++ [c] ∧
    last (deck waiting_game) = Some c ∧
    (∃ g1, games (srv (post_play_card "g" "p1" (Pos 0 0) waiting_server)) !! "g"%string
             = Some g1 ∧
           deck g1 = rest) ∧
    (∃ g2, games (on_message 1 (CARD_PLAY_REQUEST "g" (Pos 0 0)) waiting_server).1
             !! "g"%string = Some g2 ∧
           deck g2 = rest) ∧
    (is_Some (board waiting_game !! y (Pos 0 0)) →
     sent (post_play_card "g" "p1" (Pos 0 0) waiting_server) =
       recipients (playerConnections waiting_server)
         (mkUpdate CARD_PLAY (game_id waiting_game) (CardPlayData (Pos 0 0) c))) ∧
    resp (post_join "g" "p2" black waiting_server) = Json game' ∧
    games (srv (post_join "g" "p2" black waiting_server)) !! "g"%string = Some game' ∧
    communityCards game' = reveal <$> take 3 (deck waiting_game) ∧
    deck game' = drop 3 (deck waiting_game) ∧
    (face c ∉ face <$> communityCards game') ∧
    (∃ g3, games (srv (post_play_card "g" "p1" (Pos 0 0)
                         (srv (post_join "g" "p2" black waiting_server))))
             !! "g"%string = Some g3 ∧
           deck game' = deck g3 ++ [c]) ∧
    (∃ g4, games (on_message 1 (CARD_PLAY_REQUEST "g" (Pos 0 0))
                    (srv (post_join "g" "p2" black waiting_server))).1
             !! "g"%string = Some g4 ∧
           deck game' = deck g4 ++ [c]).
Proof.
  apply (draw_and_deal_opposite_ends 1 "g" "p2" "p1" black (Pos 0 0) waiting_server
           waiting_game).
  - vm_compute. reflexivity.
  - apply createDeck_NoDup.
  - unfold waiting_game. cbn [deck]. rewrite createDeck_length. lia.
  - vm_compute. reflexivity.
  - vm_compute. reflexivity.
Defined.

(** C3 as stated fails: on the waiting session the play-card draw yields
    the 2 of hearts, the last card of the deck, which is none of the three
    cards the activating join deals from the front of the same deck. *)
Lemma deal_and_draw_differ :
  ∃ game game' c,
    games waiting_server !! "g"%string = Some game ∧
    sent (post_play_card "g" "p1" (Pos 0 0) waiting_server) =
      [(1%nat, Update (mkUpdate CARD_PLAY "g" (CardPlayData (Pos 0 0) c)))] ∧
    (js_pop (deck game)).1 = Some c ∧
    resp (post_join "g" "p2" black waiting_server) = Json game' ∧
    communityCards game' = reveal <$> (js_splice0 3 (deck game)).1 ∧
    head (js_splice0 1 (deck game)).1 ≠ Some c ∧
    c ∉ (js_splice0 3 (deck game)).1.
Proof.
  exists waiting_game. eexists. exists (mkCard hearts (Num 2) false).
  split; [vm_compute; reflexivity|].
  split; [vm_compute; reflexivity|].
  split; [vm_compute; reflexivity|].
  split; [vm_compute; reflexivity|].
  split; [vm_compute; reflexivity|].
  split; [vm_compute; discriminate|]. by_compute.
Qed.

(** C4, as amended.  A play-card command against an existing session with
    a non-empty deck removes exactly one card, the last of the deck, on
    both surfaces and whatever the target cell holds.  The REST handler
    broadcasts CARD_PLAY {piecePosition, card} to every connection of the
    session whenever the board has the row [piecePosition.y]; the
    push-channel handler broadcasts it only when the cell holds a piece.
    When the row does not exist nothing is broadcast: the REST handler
    fails with an uncaught TypeError, the push-channel handler answers its
    sender ERROR 'Invalid message format'. *)
Theorem play_card_effect conn gameId pid p s game c :
  games s !! gameId = Some game →
  last (deck game) = Some c →
  (∃ g1, games (srv (post_play_card gameId pid p s)) !! gameId = Some g1 ∧
         deck game = deck g1 ++ [c]) ∧
  (∃ g2, games (on_message conn (CARD_PLAY_REQUEST gameId p) s).1 !! gameId = Some g2 ∧
         deck game = deck g2 ++ [c]) ∧
  match board_get (board game) p with
  | Normal (Some piece) =>
      sent (post_play_card gameId pid p s) =
        recipients (playerConnections s)
          (mkUpdate CARD_PLAY (game_id game) (CardPlayData p c)) ∧
      (on_message conn (CARD_PLAY_REQUEST gameId p) s).2 =
        recipients (playerConnections s) (mkUpdate CARD_PLAY gameId (CardPlayData p c))
  | Normal None =>
      sent (post_play_card gameId pid p s) =
        recipients (playerConnections s)
          (mkUpdate CARD_PLAY (game_id game) (CardPlayData p c)) ∧
      (on_message conn (CARD_PLAY_REQUEST gameId p) s).2 = []
  | TypeError =>
      sent (post_play_card gameId pid p s) = [] ∧
      resp (post_play_card gameId pid p s) = Uncaught ∧
      (on_message conn (CARD_PLAY_REQUEST gameId p) s).2 =
        [(conn, ERROR "Invalid message format")]
  end.
Proof.
  intros Hgame Hlast.
  assert (Hpop : js_pop (deck game) = (Some c, take (length (deck game) - 1) (deck game)))
    by by rewrite js_pop_last, Hlast.
  pose proof (js_pop_Some_inv _ _ _ Hpop) as Hdeck.
  unfold post_play_card, on_message, broadcastGameUpdate.
  rewrite Hgame, Hpop. cbn [board with_deck].
  rewrite !broadcast_to_recipients.
  destruct (board_get (board game) p) as [[piece|]|];
    cbn [srv sent resp fst snd caught set_game games];
    rewrite !lookup_insert_eq; split_and!; eauto.
Qed.

Lemma play_card_effect_witness :
  (∃ g1, games (srv (post_play_card "g" "p1" (Pos 0 3) waiting_server)) !! "g"%string
           = Some g1 ∧
         deck waiting_game = deck g1 ++ [mkCard hearts (Num 2) false]) ∧
  (∃ g2, games (on_message 1 (CARD_PLAY_REQUEST "g" (Pos 0 3)) waiting_server).1
           !! "g"%string = Some g2 ∧
         deck waiting_game = deck g2 ++ [mkCard hearts (Num 2) false]) ∧
  match board_get (board waiting_game) (Pos 0 3) with
  | Normal (Some piece) =>
      sent (post_play_card "g" "p1" (Pos 0 3) waiting_server) =
        recipients (playerConnections waiting_server)
          (mkUpdate CARD_PLAY (game_id waiting_game)
             (CardPlayData (Pos 0 3) (mkCard hearts (Num 2) false))) ∧
      (on_message 1 (CARD_PLAY_REQUEST "g" (Pos 0 3)) waiting_server).2 =
        recipients (playerConnections waiting_server)
          (mkUpdate CARD_PLAY "g" (CardPlayData (Pos 0 3) (mkCard hearts (Num 2) false)))
  | Normal None =>
      sent (post_play_card "g" "p1" (Pos 0 3) waiting_server) =
        recipients (playerConnections waiting_server)
          (mkUpdate CARD_PLAY (game_id waiting_game)
             (CardPlayData (Pos 0 3) (mkCard hearts (Num 2) false))) ∧
      (on_message 1 (CARD_PLAY_REQUEST "g" (Pos 0 3)) waiting_server).2 = []
  | TypeError =>
      sent (post_play_card "g" "p1" (Pos 0 3) waiting_server) = [] ∧
      resp (post_play_card "g" "p1" (Pos 0 3) waiting_server) = Uncaught ∧
      (on_message 1 (CARD_PLAY_REQUEST "g" (Pos 0 3)) waiting_server).2 =
        [(1%nat, ERROR "Invalid message format")]
  end.
Proof.
  apply (play_card_effect 1 "g" "p1" (Pos 0 3) waiting_server waiting_game
           (mkCard hearts (Num 2) false)).
  - vm_compute. reflexivity.
  - vm_compute. reflexivity.
Defined.

(** C4 as stated fails on the push channel: a CARD_PLAY_REQUEST aimed at an
    empty cell of a session with a full deck and a registered connection
    consumes a card and broadcasts nothing. *)
Lemma ws_card_play_request_empty_cell_silent :
  ∃ game game',
    games waiting_server !! "g"%string = Some game ∧
    length (deck game) = 52%nat ∧
    recipients (playerConnections waiting_server)
      (mkUpdate CARD_PLAY "g" (CardPlayData (Pos 0 3) (mkCard hearts (Num 2) false)))
      ≠ [] ∧
    board_get (board game) (Pos 0 3) = Normal None ∧
    on_message 1 (CARD_PLAY_REQUEST "g" (Pos 0 3)) waiting_server =
      (set_game waiting_server "g" game', []) ∧
    length (deck game') = 51%nat.
Proof.
  exists waiting_game, (with_deck waiting_game (take 51 (createDeck []))).
  split; [vm_compute; reflexivity|].
  split; [apply createDeck_length|].
  split; [vm_compute; discriminate|].
  split; [vm_compute; reflexivity|].
  split; [vm_compute; reflexivity|].
  cbn [deck with_deck]. rewrite length_take, createDeck_length. lia.
Qed.

(** C5, as amended.  A play-card command against an existing session
    whose deck is empty changes nothing on either surface.  The REST
    handler answers 400 'No cards left in deck'; the push-channel handler
    sends nothing, not even to the caller. *)
Theorem play_card_empty_deck conn gameId pid p s game :
  games s !! gameId = Some game →
  deck game = [] →
  post_play_card gameId pid p s = mkOutcome s [] (Error 400 "No cards left in deck") ∧
  on_message conn (CARD_PLAY_REQUEST gameId p) s = (s, []).
Proof.
  intros Hgame Hdeck. unfold post_play_card, on_message.
  by rewrite Hgame, Hdeck.
Qed.

Lemma play_card_empty_deck_witness :
  post_play_card "g" "p1" (Pos 0 0) (drained_server 52) =
    mkOutcome (drained_server 52) [] (Error 400 "No cards left in deck") ∧
  on_message 1 (CARD_PLAY_REQUEST "g" (Pos 0 0)) (drained_server 52) =
    (drained_server 52, []).
Proof.
  apply (play_card_empty_deck 1 "g" "p1" (Pos 0 0) (drained_server 52) drained_game).
  - vm_compute. reflexivity.
  - vm_compute. reflexivity.
Defined.

(** C5 as stated fails on the push channel: with the deck drawn empty, a
    CARD_PLAY_REQUEST is answered by no message at all. *)
Lemma ws_card_play_request_empty_deck_silent :
  ∃ game,
    games (drained_server 52) !! "g"%string = Some game ∧
    deck game = [] ∧
    (on_message 1 (CARD_PLAY_REQUEST "g" (Pos 0 0)) (drained_server 52)).2 = [] ∧
    ∀ message,
      (1%nat, ERROR message)
        ∉ (on_message 1 (CARD_PLAY_REQUEST "g" (Pos 0 0)) (drained_server 52)).2.
Proof.
  exists drained_game.
  split; [vm_compute; reflexivity|].
  split; [vm_compute; reflexivity|].
  assert ((on_message 1 (CARD_PLAY_REQUEST "g" (Pos 0 0)) (drained_server 52)).2 = [])
    as -> by (vm_compute; reflexivity).
  split; [done|]. intros message ?%elem_of_nil. done.
Qed.

(** * Coordinates *)


(** * Further properties of the REST endpoints *)

(** X1.  The session a create command answers is the one a following read of
    its identifier answers; a read never changes the server, and the reads
    of other identifiers are not affected by the creation. *)
Theorem get_game_after_post_games gameId rnd s :
  ∃ g,
    resp (post_games gameId rnd s) = Created gameId g ∧
    get_game gameId (srv (post_games gameId rnd s)) =
      mkOutcome (srv (post_games gameId rnd s)) [] (Json g) ∧
    (∀ k, k ≠ gameId →
       resp (get_game k (srv (post_games gameId rnd s))) = resp (get_game k s)) ∧
    (∀ k, srv (get_game k s) = s ∧ sent (get_game k s) = [] ∧
          (resp (get_game k s) = Error 404 "Game not found" ↔ games s !! k = None)).
Proof.
  eexists. split; [reflexivity|]. split_and!.
  - unfold get_game, post_games. cbn [srv set_game games].
    by rewrite lookup_insert_eq.
  - intros k Hk. unfold get_game, post_games. cbn [srv set_game games].
    rewrite lookup_insert_ne by done. by destruct (games s !! k).
  - intros k. unfold get_game.
    destruct (games s !! k); split_and!; try done; split; done.
Qed.

(** What every accepted join keeps. *)
Lemma post_join_accepted gameId pid col s game :
  games s !! gameId = Some game →
  truthy (obj_get col (players game)) = false →
  ∃ game',
    post_join gameId pid col s = mkOutcome (set_game s gameId game') [] (Json game') ∧
    players game' = obj_set col pid (players game) ∧
    game_id game' = game_id game ∧
    board game' = board game ∧
    currentTurn game' = currentTurn game.
Proof.
  intros Hgame Hfree. unfold post_join. rewrite Hgame, Hfree.
  destruct (truthy _ && truthy _); [destruct (js_splice0 3 (deck game))|];
    eexists; (split; [reflexivity|done]).
Qed.

(** X3.  A join with the empty string as player identifier is accepted and
    stores it, and the color stays free: the truthiness test of the next
    join of that color passes again, and the session is not activated. *)
Theorem post_join_empty_playerId gameId col s game :
  games s !! gameId = Some game →
  truthy (obj_get col (players game)) = false →
  ∃ game',
    post_join gameId EmptyString col s =
      mkOutcome (set_game s gameId game') [] (Json game') ∧
    obj_get col (players game') = Some EmptyString ∧
    truthy (obj_get col (players game')) = false ∧
    status game' = status game ∧
    communityCards game' = communityCards game ∧
    deck game' = deck game ∧
    ∀ pid, ∃ game'',
      resp (post_join gameId pid col (set_game s gameId game')) = Json game'' ∧
      obj_get col (players game'') = Some pid.
Proof.
  intros Hgame Hfree.
  assert (Hboth : truthy (obj_get white (obj_set col EmptyString (players game)))
                  && truthy (obj_get black (obj_set col EmptyString (players game)))
                  = false).
  { destruct col.
    - by rewrite obj_get_set_eq.
    - rewrite (obj_get_set_eq _ black). apply andb_false_r. }
  unfold post_join at 1. rewrite Hgame, Hfree, Hboth.
  eexists. split; [reflexivity|]. cbn [players status communityCards deck].
  rewrite obj_get_set_eq. split_and!; try done.
  intros pid.
  edestruct (post_join_accepted gameId pid col) as (game'' & -> & Hplayers & _).
  - cbn [set_game games]. apply lookup_insert_eq.
  - cbn [players]. by rewrite obj_get_set_eq.
  - exists game''. split; [done|]. rewrite Hplayers. apply obj_get_set_eq.
Qed.

Lemma post_join_empty_playerId_witness :
  ∃ game',
    post_join "g" EmptyString black waiting_server =
      mkOutcome (set_game waiting_server "g" game') [] (Json game') ∧
    obj_get black (players game') = Some EmptyString ∧
    truthy (obj_get black (players game')) = false ∧
    status game' = status waiting_game ∧
    communityCards game' = communityCards waiting_game ∧
    deck game' = deck waiting_game ∧
    ∀ pid, ∃ game'',
      resp (post_join "g" pid black (set_game waiting_server "g" game')) = Json game'' ∧
      obj_get black (players game'') = Some pid.
Proof.
  apply (post_join_empty_playerId "g" black waiting_server waiting_game).
  - vm_compute. reflexivity.
  - vm_compute. reflexivity.
Defined.

(** * Further properties of the REST move endpoint *)

(** The accepted case of the handler, and its converse. *)
Lemma post_move_ok gameId m s game piece :
  games s !! gameId = Some game →
  playerColorOf (players game) (playerId m) = Some (currentTurn game) →
  board_get (board game) (from m) = Normal (Some piece) →
  color piece = currentTurn game →
  is_Some (board game !! y (to m)) →
  post_move gameId m s =
    mkOutcome
      (set_game s gameId
         (with_turn
            (with_board game
               (board_put (board_put (board game) (to m) (Some (moved piece (to m))))
                  (from m) None))
            (other (currentTurn game))))
      (recipients (playerConnections s)
         (mkUpdate MOVE (game_id game) (MoveData (from m) (to m) piece)))
      (Json
         (with_turn
            (with_board game
               (board_put (board_put (board game) (to m) (Some (moved piece (to m))))
                  (from m) None))
            (other (currentTurn game)))).
Proof.
  intros Hgame Hcolor Hfrom Hpiece Hrow. unfold post_move.
  rewrite Hgame, Hcolor, Hfrom, Hpiece, (board_set_Normal _ _ _ Hrow).
  rewrite bool_decide_eq_true_2 by done. cbn [negb].
  unfold broadcastGameUpdate. rewrite broadcast_to_recipients.
  by destruct (currentTurn game).
Qed.

Lemma post_move_Json_inv gameId m s game' :
  resp (post_move gameId m s) = Json game' →
  ∃ game piece,
    games s !! gameId = Some game ∧
    playerColorOf (players game) (playerId m) = Some (currentTurn game) ∧
    board_get (board game) (from m) = Normal (Some piece) ∧
    color piece = currentTurn game ∧
    is_Some (board game !! y (to m)).
Proof.
  unfold post_move.
  destruct (games s !! gameId) as [game|] eqn:Hgame; [|done].
  destruct (playerColorOf (players game) (playerId m)) as [playerColor|] eqn:Hcolor;
    [|done].
  case_bool_decide as Hturn; [|done]. cbn [negb].
  destruct (board_get (board game) (from m)) as [[piece|]|] eqn:Hfrom; [|done|done].
  case_bool_decide as Hpiece; [|done]. cbn [negb].
  unfold board_set.
  destruct (board game !! y (to m)) eqn:Hrow; [|done].
  intros _. exists game, piece. subst playerColor. split_and!; eauto.
Qed.

(** X4.  An accepted REST move of a piece to another cell: the destination
    holds the piece with its [position] updated, whatever it held before;
    the source is empty; every other cell is as before; the turn passes to
    the other color; players, cards and status are untouched; and the MOVE
    update, carrying the piece as it was, goes to the connections of the
    session's [id]. *)
Theorem post_move_accepted gameId m s game piece :
  games s !! gameId = Some game →
  playerColorOf (players game) (playerId m) = Some (currentTurn game) →
  board_get (board game) (from m) = Normal (Some piece) →
  color piece = currentTurn game →
  is_Some (board game !! y (to m)) →
  from m ≠ to m →
  ∃ game',
    post_move gameId m s =
      mkOutcome (set_game s gameId game')
        (recipients (playerConnections s)
           (mkUpdate MOVE (game_id game) (MoveData (from m) (to m) piece)))
        (Json game') ∧
    board_get (board game') (to m) = Normal (Some (moved piece (to m))) ∧
    board_get (board game') (from m) = Normal None ∧
    (∀ q, q ≠ from m → q ≠ to m → board_get (board game') q = board_get (board game) q) ∧
    currentTurn game' = other (currentTurn game) ∧
    players game' = players game ∧
    deck game' = deck game ∧
    communityCards game' = communityCards game ∧
    status game' = status game ∧
    game_id game' = game_id game.
Proof.
  intros Hgame Hcolor Hfrom Hpiece Hrow Hne.
  eexists. split; [by apply post_move_ok|].
  cbn [board with_turn with_board currentTurn players deck communityCards status game_id].
  split_and!; try done.
  - rewrite board_get_put_ne by done. by apply board_get_put_eq.
  - apply board_get_put_eq, board_put_rows, board_get_Normal. eauto.
  - intros q Hq1 Hq2. by rewrite !board_get_put_ne.
Qed.

Lemma post_move_accepted_witness :
  ∃ game',
    post_move "g" (mkMove (Pos 4 6) (Pos 4 4) "p1") active_server =
      mkOutcome (set_game active_server "g" game')
        (recipients (playerConnections active_server)
           (mkUpdate MOVE (game_id active_game)
              (MoveData (Pos 4 6) (Pos 4 4) (mkPiece pawn white (Pos 4 6) None))))
        (Json game') ∧
    board_get (board game') (Pos 4 4)
      = Normal (Some (moved (mkPiece pawn white (Pos 4 6) None) (Pos 4 4))) ∧
    board_get (board game') (Pos 4 6) = Normal None ∧
    (∀ q, q ≠ Pos 4 6 → q ≠ Pos 4 4 →
          board_get (board game') q = board_get (board active_game) q) ∧
    currentTurn game' = other (currentTurn active_game) ∧
    players game' = players active_game ∧
    deck game' = deck active_game ∧
    communityCards game' = communityCards active_game ∧
    status game' = status active_game ∧
    game_id game' = game_id active_game.
Proof.
  apply (post_move_accepted "g" (mkMove (Pos 4 6) (Pos 4 4) "p1") active_server
           active_game (mkPiece pawn white (Pos 4 6) None)).
  - vm_compute. reflexivity.
  - vm_compute. reflexivity.
  - vm_compute. reflexivity.
  - reflexivity.
  - vm_compute. eauto.
  - discriminate.
Defined.

(** X5.  A REST move whose destination is its own source is accepted like any
    other, and the piece leaves the board: the cell is written and then
    cleared. *)
Theorem post_move_same_square_erases gameId m s game piece :
  games s !! gameId = Some game →
  playerColorOf (players game) (playerId m) = Some (currentTurn game) →
  board_get (board game) (from m) = Normal (Some piece) →
  color piece = currentTurn game →
  to m = from m →
  ∃ game',
    resp (post_move gameId m s) = Json game' ∧
    games (srv (post_move gameId m s)) !! gameId = Some game' ∧
    board_get (board game') (from m) = Normal None ∧
    (∀ q, q ≠ from m → board_get (board game') q = board_get (board game) q) ∧
    currentTurn game' = other (currentTurn game).
Proof.
  intros Hgame Hcolor Hfrom Hpiece Hto.
  assert (Hrow : is_Some (board game !! y (to m))).
  { rewrite Hto. apply board_get_Normal. eauto. }
  rewrite (post_move_ok _ _ _ _ _ Hgame Hcolor Hfrom Hpiece Hrow).
  eexists. split; [reflexivity|]. cbn [srv set_game games].
  split; [apply lookup_insert_eq|].
  cbn [board with_turn with_board currentTurn]. rewrite Hto. split_and!; [| |done].
  - apply board_get_put_eq, board_put_rows, board_get_Normal. eauto.
  - intros q Hq. by rewrite !board_get_put_ne.
Qed.

Lemma post_move_same_square_erases_witness :
  ∃ game',
    resp (post_move "g" (mkMove (Pos 4 7) (Pos 4 7) "p1") active_server) = Json game' ∧
    games (srv (post_move "g" (mkMove (Pos 4 7) (Pos 4 7) "p1") active_server))
      !! "g"%string = Some game' ∧
    board_get (board game') (Pos 4 7) = Normal None ∧
    (∀ q, q ≠ Pos 4 7 → board_get (board game') q = board_get (board active_game) q) ∧
    currentTurn game' = other (currentTurn active_game).
Proof.
  apply (post_move_same_square_erases "g" (mkMove (Pos 4 7) (Pos 4 7) "p1")
           active_server active_game (mkPiece king white (Pos 4 7) None)).
  - vm_compute. reflexivity.
  - vm_compute. reflexivity.
  - vm_compute. reflexivity.
  - reflexivity.
  - reflexivity.
Defined.

(** X6.  The source cell of a REST move must hold a piece of the mover's
    color: an empty source, or one holding a piece of the other color, is
    answered 400 'Invalid piece'. *)
Theorem post_move_invalid_piece gameId m s game cell :
  games s !! gameId = Some game →
  playerColorOf (players game) (playerId m) = Some (currentTurn game) →
  board_get (board game) (from m) = Normal cell →
  (∀ piece, cell = Some piece → color piece ≠ currentTurn game) →
  post_move gameId m s = mkOutcome s [] (Error 400 "Invalid piece").
Proof.
  intros Hgame Hcolor Hfrom Hcell. unfold post_move.
  rewrite Hgame, Hcolor, Hfrom. rewrite bool_decide_eq_true_2 by done. cbn [negb].
  destruct cell as [piece|]; [|done].
  rewrite bool_decide_eq_false_2 by (by apply Hcell). done.
Qed.

Lemma post_move_invalid_piece_witness :
  post_move "g" (mkMove (Pos 4 1) (Pos 4 3) "p1") active_server =
    mkOutcome active_server [] (Error 400 "Invalid piece").
Proof.
  apply (post_move_invalid_piece "g" (mkMove (Pos 4 1) (Pos 4 3) "p1") active_server
           active_game (Some (mkPiece pawn black (Pos 4 1) None))).
  - vm_compute. reflexivity.
  - vm_compute. reflexivity.
  - vm_compute. reflexivity.
  - intros piece [= <-]. discriminate.
Defined.

(** X7.  Every answer of the REST move endpoint other than the 200 with the
    session, an uncaught TypeError included, leaves the server as it was
    and broadcasts nothing: the handler writes only after its last
    check. *)
Theorem post_move_rejected_unchanged gameId m s :
  (∀ game', resp (post_move gameId m s) ≠ Json game') →
  srv (post_move gameId m s) = s ∧ sent (post_move gameId m s) = [].
Proof.
  unfold post_move.
  destruct (games s !! gameId) as [game|]; [|done].
  destruct (playerColorOf (players game) (playerId m)) as [playerColor|]; [|done].
  destruct (negb _); [done|].
  destruct (board_get (board game) (from m)) as [[piece|]|]; [|done|done].
  destruct (negb _); [done|].
  destruct (board_set _ _ _); [|done].
  intros Hrej. exfalso. by eapply Hrej.
Qed.

Lemma post_move_rejected_unchanged_witness :
  srv (post_move "g" (mkMove (Pos 4 6) (Pos 4 8) "p1") active_server) = active_server ∧
  sent (post_move "g" (mkMove (Pos 4 6) (Pos 4 8) "p1") active_server) = [].
Proof.
  apply (post_move_rejected_unchanged "g" (mkMove (Pos 4 6) (Pos 4 8) "p1")
           active_server).
  intros game'. vm_compute. discriminate.
Defined.

(** X8.  Turns alternate on the REST surface: after an accepted move of a
    player, the next move command with the same player identifier on that
    session is answered 400 'Not your turn'. *)
Theorem post_move_twice_rejected gameId m m' s game' :
  resp (post_move gameId m s) = Json game' →
  playerId m' = playerId m →
  post_move gameId m' (srv (post_move gameId m s)) =
    mkOutcome (srv (post_move gameId m s)) [] (Error 400 "Not your turn").
Proof.
  intros (game & piece & Hgame & Hcolor & Hfrom & Hpiece & Hrow)%post_move_Json_inv Hid.
  rewrite (post_move_ok _ _ _ _ _ Hgame Hcolor Hfrom Hpiece Hrow). cbn [srv].
  unfold post_move. cbn [set_game games]. rewrite lookup_insert_eq.
  cbn [players with_turn with_board currentTurn]. rewrite Hid, Hcolor.
  rewrite bool_decide_eq_false_2; [done|]. by destruct (currentTurn game).
Qed.

Lemma post_move_twice_rejected_witness :
  post_move "g" (mkMove (Pos 3 6) (Pos 3 5) "p1")
    (srv (post_move "g" (mkMove (Pos 4 6) (Pos 4 4) "p1") active_server)) =
    mkOutcome (srv (post_move "g" (mkMove (Pos 4 6) (Pos 4 4) "p1") active_server)) []
      (Error 400 "Not your turn").
Proof.
  eapply (post_move_twice_rejected "g" (mkMove (Pos 4 6) (Pos 4 4) "p1")
            (mkMove (Pos 3 6) (Pos 3 5) "p1") active_server).
  - vm_compute. reflexivity.
  - reflexivity.
Defined.

(** * Further properties of the validator and of the push channel *)

(** X9.  [isValidMove] decides exactly this: the source cell holds a piece,
    the destination is within 0..7 on both axes, and the destination cell
    holds no piece of the same color.  Neither the turn, the player, the
    kind of piece nor the source coordinates' range enter; and it throws
    exactly when the source row is missing, or the destination row is while
    the other tests pass. *)
Theorem isValidMove_spec game m :
  (isValidMove game m = Normal true ↔
     ∃ piece cell,
       board_get (board game) (from m) = Normal (Some piece) ∧
       on_grid (to m) ∧
       board_get (board game) (to m) = Normal cell ∧
       ∀ destPiece, cell = Some destPiece → color destPiece ≠ color piece) ∧
  (isValidMove game m = TypeError ↔
     board game !! y (from m) = None ∨
     ∃ piece,
       board_get (board game) (from m) = Normal (Some piece) ∧
       on_grid (to m) ∧
       board game !! y (to m) = None).
Proof.
  assert (Hgrid : (x (to m) <? 0) || (7 <? x (to m)) || (y (to m) <? 0) || (7 <? y (to m))
                  = false ↔ on_grid (to m)).
  { unfold on_grid. rewrite !orb_false_iff, !Z.ltb_ge. lia. }
  unfold isValidMove, board_get.
  destruct (board game !! y (from m)) as [row|] eqn:Hfrow.
  2:{ split; split; try done; [|by left].
      by intros (? & ? & ? & _). }
  destruct (default None (row !! x (from m))) as [piece|] eqn:Hfrom.
  2:{ split; split; try done.
      - by intros (? & ? & ? & _).
      - intros [?|(? & ? & _)]; done. }
  destruct (decide (on_grid (to m))) as [Hon|Hoff].
  2:{ assert ((x (to m) <? 0) || (7 <? x (to m)) || (y (to m) <? 0) || (7 <? y (to m))
              = true) as -> by (apply not_false_iff_true; by rewrite Hgrid).
      split; split; try done.
      - by intros (? & ? & _ & ? & _).
      - intros [?|(? & _ & ? & _)]; done. }
  rewrite (proj2 Hgrid Hon).
  destruct (board game !! y (to m)) as [row'|] eqn:Htrow.
  2:{ split; split; try done.
      - by intros (? & ? & _ & _ & ? & _).
      - intros _. right. by exists piece. }
  destruct (default None (row' !! x (to m))) as [destPiece|] eqn:Hto.
  - case_bool_decide as Hcol; split; split; try done.
    + intros (piece' & cell & [= <-] & _ & [= <-] & Hne). by destruct (Hne destPiece).
    + intros [?|(? & _ & _ & ?)]; done.
    + intros _. exists piece, (Some destPiece). split_and!; try done.
      by intros ? [= <-].
    + intros [?|(? & _ & _ & ?)]; done.
  - split; split; try done.
    + intros _. by exists piece, None.
    + intros [?|(? & _ & _ & ?)]; done.
Qed.

(** X10.  Every message the push-channel handler sends is either the catch
    block's ERROR 'Invalid message format', sent to the connection the
    message came from, or an update delivered to a connection that the
    registry, as the message leaves it, holds for the update's session.
    In particular ERROR 'No piece at source position' is never sent: the
    validator has already found the piece. *)
Theorem on_message_sends conn msg s h out :
  (h, out) ∈ (on_message conn msg s).2 →
  (h = conn ∧ out = ERROR "Invalid message format") ∨
  (∃ u pid c,
     out = Update u ∧
     (pid, c) ∈ playerConnections (on_message conn msg s).1 ∧
     ws c = h ∧ conn_gameId c = upd_gameId u).
Proof.
  assert (Hcaught : ∀ s', (h, out) ∈ (caught s' conn).2 →
                          h = conn ∧ out = ERROR "Invalid message format").
  { intros s' [= -> ->]%list_elem_of_singleton. done. }
  assert (Hcast : ∀ conns u, (h, out) ∈ recipients conns u →
            ∃ u pid c, out = Update u ∧ (pid, c) ∈ conns ∧
                       ws c = h ∧ conn_gameId c = upd_gameId u).
  { intros conns u (-> & pid & c & ? & ? & ?)%elem_of_recipients. by exists u, pid, c. }
  destruct msg as [gameId pid|gameId m|gameId p| |]; cbn [on_message].
  - unfold broadcastGameUpdate. rewrite broadcast_to_recipients. cbn [fst snd].
    intros ?%Hcast. by right.
  - destruct (games s !! gameId) as [game|] eqn:Hgame; [|by intros ?%elem_of_nil].
    destruct (isValidMove game m) as [[]|] eqn:Hvalid.
    + destruct (on_message_move_request_valid conn _ _ _ _ Hgame Hvalid)
        as (piece & Hfrom & Hmsg & _).
      unfold on_message in Hmsg. rewrite Hgame, Hvalid in Hmsg. rewrite Hmsg.
      cbn [fst snd set_game playerConnections]. intros ?%Hcast. by right.
    + by intros ?%elem_of_nil.
    + intros ?%Hcaught. by left.
  - destruct (games s !! gameId) as [game|]; [|by intros ?%elem_of_nil].
    destruct (js_pop (deck game)) as [[c|] rest]; [|by intros ?%elem_of_nil].
    destruct (board_get _ p) as [[piece|]|].
    + unfold broadcastGameUpdate. rewrite broadcast_to_recipients.
      cbn [fst snd set_game playerConnections]. intros ?%Hcast. by right.
    + by intros ?%elem_of_nil.
    + intros ?%Hcaught. by left.
  - by intros ?%elem_of_nil.
  - intros ?%Hcaught. by left.
Qed.

Lemma on_message_sends_witness :
  (1%nat = 1%nat ∧
   Update (mkUpdate PLAYER_JOINED "g" (PlayerData "p1")) = ERROR "Invalid message format") ∨
  (∃ u pid c,
     Update (mkUpdate PLAYER_JOINED "g" (PlayerData "p1")) = Update u ∧
     (pid, c) ∈ playerConnections (on_message 1 (JOIN_GAME "g" "p1") empty_server).1 ∧
     ws c = 1%nat ∧ conn_gameId c = upd_gameId u).
Proof.
  apply (on_message_sends 1 (JOIN_GAME "g" "p1") empty_server).
  vm_compute. left.
Defined.

(** X11.  The push-channel JOIN_GAME is an upsert keyed by the player
    identifier, made whether or not the session exists: afterwards the
    player's entry is this connection and this session identifier, the
    other players' entries are as before, an entry is added only when the
    player had none, keys stay unique, and no session changes. *)
Theorem join_game_registers conn gameId pid s :
  games (on_message conn (JOIN_GAME gameId pid) s).1 = games s ∧
  obj_get pid (playerConnections (on_message conn (JOIN_GAME gameId pid) s).1)
    = Some (mkConn conn gameId) ∧
  (∀ pid', pid ≠ pid' →
     obj_get pid' (playerConnections (on_message conn (JOIN_GAME gameId pid) s).1)
       = obj_get pid' (playerConnections s)) ∧
  (playerConnections (on_message conn (JOIN_GAME gameId pid) s).1).*1
    = (if decide (pid ∈ (playerConnections s).*1)
       then (playerConnections s).*1
       else (playerConnections s).*1 ++ [pid]) ∧
  (NoDup (playerConnections s).*1 →
   NoDup (playerConnections (on_message conn (JOIN_GAME gameId pid) s).1).*1).
Proof.
  cbn [on_message fst games playerConnections]. split_and!.
  - done.
  - apply obj_get_set_eq.
  - intros pid' Hne. by apply obj_get_set_ne.
  - case_decide; [by apply obj_set_keys_in|by apply obj_set_keys_fresh].
  - apply obj_set_NoDup.
Qed.

(** X12.  A close event on a connection that no entry of the registry holds
    changes nothing and sends nothing. *)
Theorem on_close_without_entry conn s :
  (∀ pid c, (pid, c) ∈ playerConnections s → ws c ≠ conn) →
  on_close conn s = (s, []).
Proof.
  intros Hnone%find_conn_None. unfold on_close. by rewrite Hnone.
Qed.

Lemma on_close_without_entry_witness : on_close 7 connected_server = (connected_server, []).
Proof.
  apply (on_close_without_entry 7 connected_server).
  apply find_conn_None. vm_compute. reflexivity.
Defined.

(** X13.  The close handler removes one entry per event: when a connection is
    registered under two player identifiers, one of the two entries is
    still in the registry after its close. *)
Theorem on_close_leaves_second_entry conn s pid1 c1 pid2 c2 :
  NoDup (playerConnections s).*1 →
  (pid1, c1) ∈ playerConnections s →
  (pid2, c2) ∈ playerConnections s →
  pid1 ≠ pid2 →
  ws c1 = conn →
  ws c2 = conn →
  ∃ pid c,
    (pid, c) ∈ playerConnections (on_close conn s).1 ∧
    ws c = conn ∧
    S (length (playerConnections (on_close conn s).1)) = length (playerConnections s).
Proof.
  intros Hnd Hin1 Hin2 Hne Hws1 Hws2. unfold on_close.
  destruct (find_conn conn (playerConnections s)) as [[pid c]|] eqn:Hfind.
  2:{ rewrite find_conn_None in Hfind. by destruct (Hfind pid1 c1). }
  cbn [fst playerConnections].
  destruct (find_conn_Some _ _ _ _ Hfind) as [Hin _].
  destruct (obj_delete_split _ _ _ Hnd Hin) as (l1 & l2 & Heq & Hdel).
  assert (Hlen : S (length (obj_delete pid (playerConnections s)))
                 = length (playerConnections s)).
  { rewrite Hdel, Heq, !length_app. simpl. lia. }
  rewrite obj_delete_filter by done.
  rewrite obj_delete_filter in Hlen by done.
  destruct (decide (pid1 = pid)) as [->|Hpid].
  - exists pid2, c2. split_and!; [|done|done].
    apply list_elem_of_filter. split; [|done]. simpl. congruence.
  - exists pid1, c1. split_and!; [|done|done].
    apply list_elem_of_filter. by split.
Qed.

Lemma on_close_leaves_second_entry_witness :
  ∃ pid c,
    (pid, c) ∈ playerConnections (on_close 1 shared_socket_server).1 ∧
    ws c = 1%nat ∧
    S (length (playerConnections (on_close 1 shared_socket_server).1))
      = length (playerConnections shared_socket_server).
Proof.
  apply (on_close_leaves_second_entry 1 shared_socket_server
           "p1" (mkConn 1 "g") "p2" (mkConn 1 "g")).
  - by_compute.
  - by_compute.
  - by_compute.
  - discriminate.
  - reflexivity.
  - reflexivity.
Defined.

(** The two play-card handlers write the same state. *)
Lemma play_card_same_state conn gameId pid p s :
  srv (post_play_card gameId pid p s) = (on_message conn (CARD_PLAY_REQUEST gameId p) s).1.
Proof.
  unfold post_play_card, on_message.
  destruct (games s !! gameId) as [game|]; [|done].
  destruct (js_pop (deck game)) as [[c|] rest]; [|done].
  by destruct (board_get _ p) as [[piece|]|].
Qed.

(** X14.  The two play-card surfaces leave the server in the same state,
    whatever the session, the deck and the cell, and the REST body's
    [playerId] plays no part.  They differ in what they send and answer
    only; and when the target cell holds a piece and the session is stored
    under its own [id], they send the same messages too. *)
Theorem play_card_surfaces_agree conn gameId pid p s :
  srv (post_play_card gameId pid p s)
    = (on_message conn (CARD_PLAY_REQUEST gameId p) s).1 ∧
  (∀ pid', post_play_card gameId pid' p s = post_play_card gameId pid p s) ∧
  (∀ game piece,
     games s !! gameId = Some game →
     game_id game = gameId →
     board_get (board game) p = Normal (Some piece) →
     sent (post_play_card gameId pid p s)
       = (on_message conn (CARD_PLAY_REQUEST gameId p) s).2).
Proof.
  split; [apply play_card_same_state|]. split; [done|].
  intros game piece Hgame Hid Hp. unfold post_play_card, on_message.
  rewrite Hgame. destruct (js_pop (deck game)) as [[c|] rest]; [|done].
  cbn [board with_deck]. rewrite Hp. cbn [sent snd]. by rewrite Hid.
Qed.

(** X15.  A play-card command changes, in its session, the deck and the card
    of the piece on the target cell, and nothing else: players, turn,
    status, community cards and every other cell are as before, and the
    piece keeps its type, color and position. *)
Theorem post_play_card_frame gameId pid p s game game' :
  games s !! gameId = Some game →
  games (srv (post_play_card gameId pid p s)) !! gameId = Some game' →
  players game' = players game ∧
  currentTurn game' = currentTurn game ∧
  status game' = status game ∧
  communityCards game' = communityCards game ∧
  game_id game' = game_id game ∧
  (∀ q, q ≠ p → board_get (board game') q = board_get (board game) q) ∧
  (∀ piece, board_get (board game) p = Normal (Some piece) →
     ∃ piece', board_get (board game') p = Normal (Some piece') ∧
               type piece' = type piece ∧ color piece' = color piece ∧
               position piece' = position piece ∧
               (deck game ≠ [] → ∃ c, last (deck game) = Some c ∧
                                      card piece' = Some (reveal c))) ∧
  (board_get (board game) p = Normal None → board game' = board game).
Proof.
  intros Hgame. unfold post_play_card. rewrite Hgame.
  rewrite js_pop_last.
  destruct (last (deck game)) as [c|] eqn:Hlast.
  2:{ cbn [srv]. rewrite Hgame. intros [= <-]. split_and!; try done.
      intros piece Hp. exists piece. split_and!; try done.
      intros Hdeck. by destruct (deck game) using rev_ind;
        [|rewrite last_snoc in Hlast]. }
  cbn [board with_deck].
  destruct (board_get (board game) p) as [[piece|]|] eqn:Hp;
    cbn [srv set_game games]; rewrite lookup_insert_eq; intros [= <-];
    cbn [players currentTurn status communityCards game_id board with_deck with_board];
    split_and!; try done.
  - intros q Hq. by rewrite board_get_put_ne.
  - intros ? [= <-]. exists (with_card piece c). split_and!; try done.
    + apply board_get_put_eq, board_get_Normal. eauto.
    + intros _. by exists c.
Qed.

Lemma post_play_card_frame_witness :
  players played_game = players waiting_game ∧
  currentTurn played_game = currentTurn waiting_game ∧
  status played_game = status waiting_game ∧
  communityCards played_game = communityCards waiting_game ∧
  game_id played_game = game_id waiting_game ∧
  (∀ q, q ≠ Pos 0 0 →
        board_get (board played_game) q = board_get (board waiting_game) q) ∧
  (∀ piece, board_get (board waiting_game) (Pos 0 0) = Normal (Some piece) →
     ∃ piece', board_get (board played_game) (Pos 0 0) = Normal (Some piece') ∧
               type piece' = type piece ∧ color piece' = color piece ∧
               position piece' = position piece ∧
               (deck waiting_game ≠ [] →
                ∃ c, last (deck waiting_game) = Some c ∧
                     card piece' = Some (reveal c))) ∧
  (board_get (board waiting_game) (Pos 0 0) = Normal None →
   board played_game = board waiting_game).
Proof.
  apply (post_play_card_frame "g" "p1" (Pos 0 0) waiting_server waiting_game
           played_game).
  - vm_compute. reflexivity.
  - vm_compute. reflexivity.
Defined.

(** * The invariants *)

Lemma board_ok_put b p c :
  board_ok b →
  (∀ piece, c = Some piece → position piece = p) →
  board_ok (board_put b p c).
Proof.
  intros [Hrows Hpos] Hc. split.
  - intros r. by rewrite board_put_rows.
  - intros q piece. destruct (decide (p = q)) as [<-|Hne].
    + intros Hget.
      assert (Hrow : is_Some (b !! y p)).
      { apply (board_put_rows b p c). apply board_get_Normal. eauto. }
      rewrite board_get_put_eq in Hget by done. injection Hget as ->. by apply Hc.
    + rewrite board_get_put_ne by done. apply Hpos.
Qed.

Lemma board_ok_createInitialBoard : board_ok createInitialBoard.
Proof.
  split; [apply createInitialBoard_rows|].
  intros p piece Hcell%board_get_cells.
  by apply (proj1 (Forall_forall _ _) createInitialBoard_cells) in Hcell as [_ ?].
Qed.

Lemma moved_position piece dst : position (moved piece dst) = dst.
Proof. by destruct dst. Qed.

Lemma board_ok_move b src dst piece :
  board_ok b →
  board_ok (board_put (board_put b dst (Some (moved piece dst))) src None).
Proof.
  intros Hb. apply board_ok_put; [|done].
  apply board_ok_put; [done|]. intros ? [= <-]. apply moved_position.
Qed.

Lemma createDeck_unrevealed rnd : Forall (λ c, revealed c = false) (createDeck rnd).
Proof. rewrite createDeck_Permutation. by_compute. Qed.

Lemma face_reveal (l : list Card) : face <$> (reveal <$> l) = face <$> l.
Proof. rewrite <-list_fmap_compose. by apply list_fmap_ext. Qed.

Lemma session_ok_new gameId rnd :
  session_ok gameId (mkGame gameId [] createInitialBoard [] white (createDeck rnd) waiting).
Proof.
  split; [reflexivity|]. split; [apply board_ok_createInitialBoard|]. split.
  - unfold cards_ok. cbn [communityCards deck app length]. split_and!.
    + apply createDeck_NoDup.
    + apply createDeck_unrevealed.
    + constructor.
    + lia.
  - unfold status_ok. cbn [status players]. split_and!.
    + discriminate.
    + split; discriminate.
    + reflexivity.
    + apply NoDup_nil_2.
Qed.

Lemma session_ok_with_board k g b :
  session_ok k g → board_ok b → session_ok k (with_board g b).
Proof. intros (? & ? & ? & ?) ?. by split_and!. Qed.

Lemma session_ok_with_turn k g c : session_ok k g → session_ok k (with_turn g c).
Proof. intros (? & ? & ? & ?). by split_and!. Qed.

Lemma session_ok_with_deck k g c rest :
  session_ok k g → deck g = rest ++ [c] → session_ok k (with_deck g rest).
Proof.
  intros (? & ? & (Hnd & Hdown & Hup & Hlen) & ?) Hdeck. split_and!; try done.
  rewrite Hdeck in Hnd, Hdown. split_and!; cbn; try done.
  - rewrite app_assoc, fmap_app in Hnd. by apply NoDup_app in Hnd as [? _].
  - by apply Forall_app in Hdown as [? _].
Qed.

Lemma session_ok_join k g col pid :
  session_ok k g →
  truthy (obj_get col (players g)) = false →
  session_ok k
    (if truthy (obj_get white (obj_set col pid (players g)))
        && truthy (obj_get black (obj_set col pid (players g)))
     then
       let '(dealt, rest) := js_splice0 3 (deck g) in
       mkGame (game_id g) (obj_set col pid (players g)) (board g) (reveal <$> dealt)
              (currentTurn g) rest active
     else
       mkGame (game_id g) (obj_set col pid (players g)) (board g) (communityCards g)
              (currentTurn g) (deck g) (status g)).
Proof.
  intros (Hid & Hboard & (Hnd & Hdown & Hup & Hlen) & (Hfin & Hact & Hwait & Hpl)) Hfree.
  fold (both_set (obj_set col pid (players g))).
  destruct (both_set (obj_set col pid (players g))) eqn:Hboth.
  - rewrite js_splice0_take_drop. split_and!; cbn; try done.
    + split_and!; cbn.
      * rewrite fmap_app, face_reveal, <-fmap_app, take_drop.
        rewrite fmap_app in Hnd. by apply NoDup_app in Hnd as (_ & _ & ?).
      * by apply Forall_drop.
      * apply Forall_fmap, Forall_true. done.
      * rewrite length_fmap, length_take. lia.
    + split_and!; cbn; try done. by apply obj_set_NoDup.
  - assert (Hnot : status g ≠ active).
    { intros Hst%Hact. unfold both_set in Hst.
      apply andb_true_iff in Hst as [? ?]. destruct col; congruence. }
    split_and!; cbn; try done.
    split_and!; cbn; try done.
    + split; [done|congruence].
    + by apply obj_set_NoDup.
Qed.

Lemma server_ok_set_game s k g :
  server_ok s → session_ok k g → server_ok (set_game s k g).
Proof. intros [? ?] ?. split; [done|]. by apply map_Forall_insert_2. Qed.

Lemma server_ok_lookup s k g : server_ok s → games s !! k = Some g → session_ok k g.
Proof. intros [_ Hall] Hg. by apply (map_Forall_lookup_1 _ _ _ _ Hall Hg). Qed.

Lemma server_ok_post_join gameId pid col s :
  server_ok s → server_ok (srv (post_join gameId pid col s)).
Proof.
  intros Hs. unfold post_join.
  destruct (games s !! gameId) as [game|] eqn:Hgame; [|done].
  destruct (truthy (obj_get col (players game))) eqn:Hfree; [done|].
  apply server_ok_set_game; [done|].
  apply session_ok_join; [|done]. by eapply server_ok_lookup.
Qed.

Lemma server_ok_post_move gameId m s :
  server_ok s → server_ok (srv (post_move gameId m s)).
Proof.
  intros Hs. unfold post_move.
  destruct (games s !! gameId) as [game|] eqn:Hgame; [|done].
  destruct (playerColorOf _ _); [|done]. destruct (negb _); [done|].
  destruct (board_get _ _) as [[piece|]|]; [|done|done].
  destruct (negb _); [done|]. unfold board_set.
  destruct (board game !! y (to m)); [|done].
  pose proof (server_ok_lookup _ _ _ Hs Hgame) as Hg.
  apply server_ok_set_game; [done|].
  apply session_ok_with_turn, session_ok_with_board; [done|].
  apply board_ok_move. apply Hg.
Qed.

Lemma server_ok_post_play_card gameId pid p s :
  server_ok s → server_ok (srv (post_play_card gameId pid p s)).
Proof.
  intros Hs. unfold post_play_card.
  destruct (games s !! gameId) as [game|] eqn:Hgame; [|done].
  destruct (js_pop (deck game)) as [[c|] rest] eqn:Hpop; [|done].
  apply js_pop_Some_inv in Hpop.
  pose proof (server_ok_lookup _ _ _ Hs Hgame) as Hg.
  pose proof (session_ok_with_deck _ _ _ _ Hg Hpop) as Hg1.
  destruct (board_get _ p) as [[piece|]|] eqn:Hp; cbn [srv];
    (apply server_ok_set_game; [done|]); try done.
  apply session_ok_with_board; [done|].
  apply board_ok_put; [apply Hg1|]. intros ? [= <-]. cbn.
  destruct Hg1 as (_ & [_ Hpos] & _). by apply Hpos.
Qed.

Lemma server_ok_on_message conn msg s :
  server_ok s → server_ok (on_message conn msg s).1.
Proof.
  intros Hs. destruct msg as [gameId pid|gameId m|gameId p| |]; try done.
  - destruct Hs as [Hnd Hall]. split; [|done]. by apply obj_set_NoDup.
  - cbn [on_message].
    destruct (games s !! gameId) as [game|] eqn:Hgame; [|done].
    destruct (isValidMove game m) as [[]|]; try done.
    destruct (board_get _ _) as [[piece|]|]; try done. unfold board_set.
    destruct (board game !! y (to m)); [|done]. cbn [fst].
    pose proof (server_ok_lookup _ _ _ Hs Hgame) as Hg.
    apply server_ok_set_game; [done|].
    apply session_ok_with_board; [done|]. apply board_ok_move. apply Hg.
  - rewrite <-(play_card_same_state conn gameId EmptyString).
    by apply server_ok_post_play_card.
Qed.

Lemma server_ok_on_close conn s : server_ok s → server_ok (on_close conn s).1.
Proof.
  intros [Hnd Hall]. unfold on_close.
  destruct (find_conn _ _) as [[pid c]|]; [|done].
  split; [|done]. by apply obj_delete_NoDup.
Qed.

Lemma server_ok_step r s : server_ok s → server_ok (step r s).
Proof.
  intros Hs. destruct r; cbn [step].
  - apply server_ok_set_game; [done|]. apply session_ok_new.
  - unfold get_game. by destruct (games s !! gameId).
  - by apply server_ok_post_join.
  - by apply server_ok_post_move.
  - by apply server_ok_post_play_card.
  - by apply server_ok_on_message.
  - by apply server_ok_on_close.
Qed.

Lemma server_ok_run rs s : server_ok s → server_ok (run rs s).
Proof.
  revert s. induction rs as [|r rs IH]; intros s Hs; [done|].
  apply IH. by apply server_ok_step.
Qed.

Lemma server_ok_empty : server_ok empty_server.
Proof. split; [apply NoDup_nil_2|apply map_Forall_empty]. Qed.

(** X16.  In every state the server reaches from its start, the registry has at
    most one entry per player identifier and every session is stored under
    its own [id]; each request keeps this. *)
Theorem reachable_wf_server rs : wf_server (run rs empty_server).
Proof.
  destruct (server_ok_run rs _ server_ok_empty) as [Hnd Hall].
  split; [done|]. intros k g Hg.
  by destruct (map_Forall_lookup_1 _ _ _ _ Hall Hg).
Qed.

(** X17.  In every reachable state, every session's board has exactly the rows
    0..7, so that a board access throws exactly when its row coordinate is
    outside 0..7, and every piece's [position] is the cell that holds it:
    moves and card plays keep what creation establishes. *)
Theorem reachable_boards rs :
  map_Forall (λ _ g,
      (∀ p, board_get (board g) p = TypeError ↔ ¬ (0 ≤ y p ≤ 7)) ∧
      (∀ p piece, board_get (board g) p = Normal (Some piece) → position piece = p))
    (games (run rs empty_server)).
Proof.
  destruct (server_ok_run rs _ server_ok_empty) as [_ Hall].
  intros k g Hg.
  destruct (map_Forall_lookup_1 _ _ _ _ Hall Hg) as (_ & [Hrows Hpos] & _).
  split; [|done]. intros p. rewrite <-Hrows. unfold board_get.
  destruct (board g !! y p); split; try done.
  intros []. eauto.
Qed.

(** X18.  In every reachable state, the community cards and the deck of a
    session together repeat no (suit, value) pair, the deck's cards are
    face down, the community cards face up, and there are at most three
    community cards. *)
Theorem reachable_cards rs :
  map_Forall (λ _ g, cards_ok g) (games (run rs empty_server)).
Proof.
  destruct (server_ok_run rs _ server_ok_empty) as [_ Hall].
  intros k g Hg. by destruct (map_Forall_lookup_1 _ _ _ _ Hall Hg) as (_ & _ & ? & _).
Qed.

(** X19.  In every reachable state, no session is finished, a session is active
    exactly when both colors are set to non-empty player identifiers, and
    a waiting session has no community cards. *)
Theorem reachable_status rs :
  map_Forall (λ _ g, status_ok g) (games (run rs empty_server)).
Proof.
  destruct (server_ok_run rs _ server_ok_empty) as [_ Hall].
  intros k g Hg. by destruct (map_Forall_lookup_1 _ _ _ _ Hall Hg) as (_ & _ & _ & ?).
Qed.

(** * Shuffle, broadcast and isolation *)

Lemma obj_set_elem_inv {K V} `{EqDecision K} (o : list (K * V)) k v k' v' :
  NoDup o.*1 →
  (k', v') ∈ obj_set k v o → (k', v') = (k, v) ∨ ((k', v') ∈ o ∧ k' ≠ k).
Proof.
  induction o as [|[k0 v0] o IH]; csimpl.
  - intros _ ->%list_elem_of_singleton. by left.
  - rewrite NoDup_cons. intros [Hk0 Hnd]. case_decide as Hk.
    + subst k0. intros [->|Hin]%elem_of_cons; [by left|].
      right. split; [by right|]. intros ->. apply Hk0.
      apply list_elem_of_fmap. by exists (k, v').
    + intros [[= -> ->]|Hin]%elem_of_cons.
      * right. split; [by left|done].
      * destruct (IH Hnd Hin) as [?|[? ?]]; [by left|]. right. split; [by right|done].
Qed.


(** X21.  [broadcastGameUpdate] sends the update, unchanged, once per registry
    entry whose [gameId] is the update's, in registration order, and to no
    other entry: a handle receives it exactly when some entry of that
    session holds it. *)
Theorem broadcastGameUpdate_sends s u :
  broadcastGameUpdate s u =
    (λ e : string * Conn, (ws e.2, Update u))
      <$> filter (λ e : string * Conn, conn_gameId e.2 = upd_gameId u)
                 (playerConnections s) ∧
  (∀ h msg, (h, msg) ∈ broadcastGameUpdate s u ↔
     msg = Update u ∧
     ∃ pid c, (pid, c) ∈ playerConnections s ∧ ws c = h ∧
              conn_gameId c = upd_gameId u) ∧
  (broadcastGameUpdate s u = [] ↔
     ∀ pid c, (pid, c) ∈ playerConnections s → conn_gameId c ≠ upd_gameId u).
Proof.
  unfold broadcastGameUpdate. rewrite broadcast_to_recipients.
  split; [done|]. split; [intros h msg; apply elem_of_recipients|].
  unfold recipients. split.
  - intros Hnil%fmap_nil_inv pid c Hin Hg.
    by apply (filter_nil_not_elem_of _ _ (pid, c) Hnil).
  - intros Hall.
    assert (filter (λ e : string * Conn, conn_gameId e.2 = upd_gameId u)
              (playerConnections s) = []) as ->; [|done].
    apply elem_of_nil_inv.
    intros [pid c] [Hg Hin]%list_elem_of_filter. by apply (Hall pid c).
Qed.

(** What a request does to the store: nothing, or one write under the
    identifier it names; a write other than a creation replaces a session
    by one whose deck is a sublist of the old deck. *)
Lemma step_games r s :
  games (step r s) = games s ∨
  ∃ gameId g,
    target r = Some gameId ∧
    games (step r s) = <[gameId := g]> (games s) ∧
    ((∃ rnd, r = POST_games gameId rnd) ∨
     ∃ g0, games s !! gameId = Some g0 ∧
           deck g `sublist_of` deck g0 ∧
           (length (deck g0) ≤ length (deck g) + 3)%nat).
Proof.
  assert (Hpc : ∀ gameId pid p,
            games (srv (post_play_card gameId pid p s)) = games s ∨
            ∃ g, games (srv (post_play_card gameId pid p s)) = <[gameId := g]> (games s) ∧
                 ∃ g0, games s !! gameId = Some g0 ∧
                       deck g `sublist_of` deck g0 ∧
                       (length (deck g0) ≤ length (deck g) + 3)%nat).
  { intros gameId pid p. unfold post_play_card.
    destruct (games s !! gameId) as [game|] eqn:Hgame; [|by left].
    destruct (js_pop (deck game)) as [[c|] rest] eqn:Hpop; [|by left].
    apply js_pop_Some_inv in Hpop.
    assert (rest `sublist_of` deck game ∧ (length (deck game) ≤ length rest + 3)%nat)
      as [? ?].
    { rewrite Hpop, length_app. split; [by apply sublist_inserts_r|simpl; lia]. }
    right. destruct (board_get _ _) as [[piece|]|];
      (eexists; split; [reflexivity|]); exists game; by split_and!. }
  destruct r as [gameId rnd|gameId|gameId pid col|gameId m|gameId pid p|conn msg|conn];
    cbn [step target].
  - right. eexists _, _. split_and!; [done|done|]. left. by exists rnd.
  - left. unfold get_game. by destruct (games s !! gameId).
  - unfold post_join. destruct (games s !! gameId) as [game|] eqn:Hgame; [|by left].
    destruct (truthy _); [by left|]. right.
    eexists _, _. split_and!; [done|done|]. right. exists game. split; [done|].
    destruct (_ && _); cbn [deck]; [|split; [done|lia]].
    rewrite js_splice0_take_drop. cbn [deck]. split; [apply sublist_drop|].
    rewrite length_drop. lia.
  - unfold post_move. destruct (games s !! gameId) as [game|] eqn:Hgame; [|by left].
    destruct (playerColorOf _ _); [|by left]. destruct (negb _); [by left|].
    destruct (board_get _ _) as [[piece|]|]; [|by left|by left].
    destruct (negb _); [by left|]. destruct (board_set _ _ _); [|by left].
    right. eexists _, _. split_and!; [done|done|]. right. exists game.
    cbn [deck with_turn with_board]. split_and!; [done|done|lia].
  - destruct (Hpc gameId pid p) as [?|(g & ? & ?)]; [by left|].
    right. exists gameId, g. split_and!; [done|done|by right].
  - destruct msg as [gameId pid|gameId m|gameId p| |]; try (by left).
    + cbn [on_message target].
      destruct (games s !! gameId) as [game|] eqn:Hgame; [|by left].
      destruct (isValidMove game m) as [[]|]; try (by left).
      destruct (board_get _ _) as [[piece|]|]; try (by left).
      destruct (board_set _ _ _); [|by left].
      right. eexists _, _. split_and!; [done|done|]. right. exists game.
      cbn [deck with_board]. split_and!; [done|done|lia].
    + rewrite <-(play_card_same_state conn gameId EmptyString). cbn [target].
      destruct (Hpc gameId EmptyString p) as [?|(g & ? & ?)]; [by left|].
      right. exists gameId, g. split_and!; [done|done|by right].
  - left. unfold on_close. by destruct (find_conn _ _) as [[pid c]|].
Qed.

(** X22.  Requests change no session other than the ones they name: across a
    run in which no request names [k], the entry of [k] in the store is as
    before. *)
Theorem run_other_sessions rs s k :
  Forall (λ r, target r ≠ Some k) rs →
  games (run rs s) !! k = games s !! k.
Proof.
  revert s. induction rs as [|r rs IH]; intros s Hrs; [done|].
  apply Forall_cons in Hrs as [Hr Hrs]. cbn [run foldl].
  fold (run rs (step r s)). rewrite (IH _ Hrs).
  destruct (step_games r s) as [->|(gameId & g & Ht & -> & _)]; [done|].
  apply lookup_insert_ne. congruence.
Qed.

Lemma run_other_sessions_witness :
  games (run [POST_games "h" []; POST_join "h" "p9" white;
              WS_message 3 (CARD_PLAY_REQUEST "h" (Pos 0 0))] active_server)
    !! "g"%string
  = games active_server !! "g"%string.
Proof.
  apply (run_other_sessions
           [POST_games "h" []; POST_join "h" "p9" white;
            WS_message 3 (CARD_PLAY_REQUEST "h" (Pos 0 0))] active_server "g").
  repeat constructor; discriminate.
Defined.

(** X23.  Sessions are created by the create command and by nothing else, and
    are never removed: a request leaves the set of stored identifiers as
    it is, except that [POST /api/games] adds its new identifier. *)
Theorem step_dom_games r s :
  dom (games (step r s)) =
    dom (games s) ∪ (match r with POST_games gameId _ => {[gameId]} | _ => ∅ end).
Proof.
  destruct r as [gameId rnd|gameId|gameId pid col|gameId m|gameId pid p|conn msg|conn].
  1:{ cbn [step post_games srv set_game games]. rewrite dom_insert_L.
      apply (comm_L (∪)). }
  all: rewrite (right_id_L ∅ (∪));
       match goal with
       | |- context [step ?r ?s'] =>
           destruct (step_games r s') as [Heq|(gameId' & g & Ht & Heq & Hwhy)]
       end;
       rewrite Heq; [done|];
       destruct Hwhy as [[rnd Hr]|(g0 & Hg0 & _)]; [discriminate|];
       rewrite dom_insert_L;
       apply subseteq_union_1_L, singleton_subseteq_l, elem_of_dom; eauto.
Qed.

(** X24.  The deck of a session only loses cards: whatever a request other than
    its re-creation does, the new deck is a sublist of the old one, at
    most three cards shorter. *)
Theorem step_deck_sublist r s k g g' :
  games s !! k = Some g →
  games (step r s) !! k = Some g' →
  (∀ rnd, r ≠ POST_games k rnd) →
  deck g' `sublist_of` deck g ∧ (length (deck g) ≤ length (deck g') + 3)%nat.
Proof.
  intros Hg Hg' Hr.
  destruct (step_games r s) as [Heq|(gameId & g1 & Ht & Heq & Hwhy)];
    rewrite Heq in Hg'.
  - rewrite Hg in Hg'. injection Hg' as <-. split; [done|lia].
  - destruct (decide (gameId = k)) as [->|Hne].
    + rewrite lookup_insert_eq in Hg'. injection Hg' as <-.
      destruct Hwhy as [[rnd ->]|(g0 & Hg0 & ? & ?)]; [by destruct (Hr rnd)|].
      rewrite Hg in Hg0. by injection Hg0 as <-.
    + rewrite lookup_insert_ne in Hg' by done.
      rewrite Hg in Hg'. injection Hg' as <-. split; [done|lia].
Qed.

Lemma step_deck_sublist_witness :
  deck active_game `sublist_of` deck waiting_game ∧
  (length (deck waiting_game) ≤ length (deck active_game) + 3)%nat.
Proof.
  apply (step_deck_sublist (POST_join "g" "p2" black) waiting_server "g"
           waiting_game active_game).
  - vm_compute. reflexivity.
  - vm_compute. reflexivity.
  - discriminate.
Defined.

(** X25.  A player who registers again from a new connection is not
    unregistered by the close of the old one: the close handler finds no
    entry holding the old connection and does nothing. *)
Theorem join_game_again_then_close_old conn old gameId pid s :
  NoDup (playerConnections s).*1 →
  (∀ pid' c', (pid', c') ∈ playerConnections s → ws c' = old → pid' = pid) →
  conn ≠ old →
  on_close old (on_message conn (JOIN_GAME gameId pid) s).1 =
    ((on_message conn (JOIN_GAME gameId pid) s).1, []) ∧
  obj_get pid (playerConnections (on_message conn (JOIN_GAME gameId pid) s).1)
    = Some (mkConn conn gameId).
Proof.
  intros Hnd Hold Hconn. split; [|apply obj_get_set_eq].
  unfold on_close.
  assert (find_conn old (playerConnections (on_message conn (JOIN_GAME gameId pid) s).1)
          = None) as ->; [|done].
  apply find_conn_None. cbn [on_message fst playerConnections].
  intros pid' c' Hin Hws.
  apply obj_set_elem_inv in Hin as [[= -> ->]|[Hin Hne]]; [| |done].
  - by apply Hconn.
  - by apply Hne, (Hold pid' c').
Qed.

Lemma join_game_again_then_close_old_witness :
  on_close 1 (on_message 5 (JOIN_GAME "g" "p1") waiting_server).1 =
    ((on_message 5 (JOIN_GAME "g" "p1") waiting_server).1, []) ∧
  obj_get "p1"%string
    (playerConnections (on_message 5 (JOIN_GAME "g" "p1") waiting_server).1)
    = Some (mkConn 5 "g").
Proof.
  apply (join_game_again_then_close_old 5 1 "g" "p1" waiting_server).
  - by_compute.
  - intros pid' c' Hin _. vm_compute in Hin.
    apply list_elem_of_singleton in Hin. by injection Hin as -> _.
  - discriminate.
Defined.

(** * Persistence of the players *)

(** What a request does to the players of the stored sessions: nothing,
    or one write under an identifier; a write other than a creation
    replaces a session by one in which every color that was set to a
    non-empty player identifier is still set to it. *)
Lemma step_games_players r s :
  games (step r s) = games s ∨
  ∃ gameId g,
    games (step r s) = <[gameId := g]> (games s) ∧
    ((∃ rnd, r = POST_games gameId rnd) ∨
     ∃ g0, games s !! gameId = Some g0 ∧
           ∀ col, truthy (obj_get col (players g0)) = true →
                  obj_get col (players g) = obj_get col (players g0)).
Proof.
  assert (Hpc : ∀ gameId pid p,
            games (srv (post_play_card gameId pid p s)) = games s ∨
            ∃ g, games (srv (post_play_card gameId pid p s)) = <[gameId := g]> (games s) ∧
                 ∃ g0, games s !! gameId = Some g0 ∧ players g = players g0).
  { intros gameId pid p. unfold post_play_card.
    destruct (games s !! gameId) as [game|] eqn:Hgame; [|by left].
    destruct (js_pop (deck game)) as [[c|] rest]; [|by left].
    right. destruct (board_get _ _) as [[piece|]|];
      (eexists; split; [reflexivity|]); by exists game. }
  destruct r as [gameId rnd|gameId|gameId pid col|gameId m|gameId pid p|conn msg|conn];
    cbn [step].
  - right. eexists _, _. split; [done|]. left. by exists rnd.
  - left. unfold get_game. by destruct (games s !! gameId).
  - unfold post_join. destruct (games s !! gameId) as [game|] eqn:Hgame; [|by left].
    destruct (truthy (obj_get col (players game))) eqn:Hfree; [by left|]. right.
    eexists _, _. split; [done|]. right. exists game. split; [done|].
    intros col' Hset.
    assert (col ≠ col') by congruence.
    destruct (_ && _); [destruct (js_splice0 3 (deck game))|];
      cbn [players]; by apply obj_get_set_ne.
  - unfold post_move. destruct (games s !! gameId) as [game|] eqn:Hgame; [|by left].
    destruct (playerColorOf _ _); [|by left]. destruct (negb _); [by left|].
    destruct (board_get _ _) as [[piece|]|]; [|by left|by left].
    destruct (negb _); [by left|]. destruct (board_set _ _ _); [|by left].
    right. eexists _, _. split; [done|]. right. by exists game.
  - destruct (Hpc gameId pid p) as [?|(g & ? & g0 & ? & Hpl)]; [by left|].
    right. exists gameId, g. split; [done|]. right. exists g0. split; [done|].
    intros col _. by rewrite Hpl.
  - destruct msg as [gameId pid|gameId m|gameId p| |]; try (by left).
    + cbn [on_message].
      destruct (games s !! gameId) as [game|] eqn:Hgame; [|by left].
      destruct (isValidMove game m) as [[]|]; try (by left).
      destruct (board_get _ _) as [[piece|]|]; try (by left).
      destruct (board_set _ _ _); [|by left].
      right. eexists _, _. split; [done|]. right. by exists game.
    + rewrite <-(play_card_same_state conn gameId EmptyString).
      destruct (Hpc gameId EmptyString p) as [?|(g & ? & g0 & ? & Hpl)]; [by left|].
      right. exists gameId, g. split; [done|]. right. exists g0. split; [done|].
      intros col _. by rewrite Hpl.
  - left. unfold on_close. by destruct (find_conn _ _) as [[pid c]|].
Qed.

(** A color set to a non-empty player identifier stays set to it, as long
    as the session is not created anew. *)
Lemma run_keeps_player rs s k g col :
  games s !! k = Some g →
  truthy (obj_get col (players g)) = true →
  Forall (λ r, ∀ rnd, r ≠ POST_games k rnd) rs →
  ∃ g', games (run rs s) !! k = Some g' ∧
        obj_get col (players g') = obj_get col (players g).
Proof.
  revert s g. induction rs as [|r rs IH]; intros s g Hg Hset Hrs; [by exists g|].
  apply Forall_cons in Hrs as [Hr Hrs]. cbn [run foldl]. fold (run rs (step r s)).
  assert (∃ g1, games (step r s) !! k = Some g1 ∧
                obj_get col (players g1) = obj_get col (players g))
    as (g1 & Hg1 & Hpl).
  { destruct (step_games_players r s) as [->|(gameId & g1 & -> & Hwhy)]; [by exists g|].
    destruct (decide (gameId = k)) as [->|Hne].
    - rewrite lookup_insert_eq. exists g1. split; [done|].
      destruct Hwhy as [[rnd ->]|(g0 & Hg0 & Hkeep)]; [by destruct (Hr rnd)|].
      rewrite Hg in Hg0. injection Hg0 as <-. by apply Hkeep.
    - rewrite lookup_insert_ne by done. by exists g. }
  destruct (IH _ _ Hg1) as (g' & Hg' & Hpl'); [by rewrite Hpl|done|].
  exists g'. split; [done|]. by rewrite Hpl'.
Qed.

(** X2.  An accepted join of a color by a non-empty player identifier takes the
    color for good: after any further requests that do not create the
    session anew (joins, moves, card plays, push-channel messages, closes,
    on this or other sessions), every join of that color, by anyone, is
    answered 400 'Color already taken' and changes nothing. *)
Theorem post_join_color_taken_after_join gameId pid pid' col s game rs :
  games s !! gameId = Some game →
  truthy (obj_get col (players game)) = false →
  pid ≠ EmptyString →
  Forall (λ r, ∀ rnd, r ≠ POST_games gameId rnd) rs →
  post_join gameId pid' col (run rs (srv (post_join gameId pid col s))) =
    mkOutcome (run rs (srv (post_join gameId pid col s))) []
      (Error 400 "Color already taken").
Proof.
  intros Hgame Hfree Hpid Hrs.
  destruct (post_join_accepted gameId pid col s game Hgame Hfree)
    as (game' & -> & Hplayers & _).
  cbn [srv].
  assert (Htaken : truthy (obj_get col (players game')) = true).
  { rewrite Hplayers, obj_get_set_eq. cbn [truthy].
    by rewrite bool_decide_eq_false_2. }
  destruct (run_keeps_player rs (set_game s gameId game') gameId game' col)
    as (g' & Hg' & Hpl); [apply lookup_insert_eq|done|done|].
  unfold post_join. by rewrite Hg', Hpl, Htaken.
Qed.

Lemma post_join_color_taken_after_join_witness :
  post_join "g" "p3" white
    (run [POST_join "g" "p2" black;
          POST_move "g" (mkMove (Pos 4 6) (Pos 4 4) "p1");
          WS_message 2 (CARD_PLAY_REQUEST "g" (Pos 0 0))]
       (srv (post_join "g" "p1" white (run [POST_games "g" []] empty_server)))) =
    mkOutcome
      (run [POST_join "g" "p2" black;
            POST_move "g" (mkMove (Pos 4 6) (Pos 4 4) "p1");
            WS_message 2 (CARD_PLAY_REQUEST "g" (Pos 0 0))]
         (srv (post_join "g" "p1" white (run [POST_games "g" []] empty_server))))
      [] (Error 400 "Color already taken").
Proof.
  apply (post_join_color_taken_after_join "g" "p1" "p3" white
           (run [POST_games "g" []] empty_server)
           (mkGame "g" [] createInitialBoard [] white (createDeck []) waiting)).
  - vm_compute. reflexivity.
  - reflexivity.
  - discriminate.
  - repeat constructor; intros rnd; discriminate.
Defined.
